(** * eavesarp command-line front end ([interface.py])

    A shallow embedding of the argument handling, filter-list population,
    conflict resolution and table assembly of [interface.py], together with
    the properties its specification states about them. *)

From Stdlib Require Import String Ascii.
From stdpp Require Import gmap strings list.
From Equations Require Import Equations.
From Equations.Prop Require Import Logic.

Local Open Scope string_scope.
Local Open Scope list_scope.

(** ** Regular expressions

    [ipv4_re] is built with Python's [re] module.  Only the constructs that
    occur in the patterns of [interface.py] are embedded: the anchors, a
    literal character, a character range, sequencing and bounded
    repetition.  The matcher is a backtracking matcher in
    continuation-passing style over the position and the remaining input. *)

Module Re.

Inductive re : Type :=
| Bol                          (* ^ *)
| Eol                          (* $ *)
| Chr (c : ascii)              (* an escaped literal such as \. *)
| Range (lo hi : ascii)        (* [lo-hi] *)
| Seq (r1 r2 : re)
| Rep (lo hi : nat) (r : re).  (* r{lo,hi}; r{n} is r{n,n} *)

Definition newline : ascii := "010"%char.

Definition in_range (lo hi c : ascii) : bool :=
  (nat_of_ascii lo <=? nat_of_ascii c)%nat && (nat_of_ascii c <=? nat_of_ascii hi)%nat.

(** Without [re.MULTILINE], [$] matches at the end of the string and also
    just before a newline that ends the string. *)
Definition at_eol (s : list ascii) : bool :=
  match s with
  | [] => true
  | [c] => bool_decide (c = newline)
  | _ => false
  end.

Definition cont : Type := nat -> list ascii -> bool.
Definition step : Type := nat -> list ascii -> cont -> bool.

Fixpoint rep_exact (m : step) (n : nat) (p : nat) (s : list ascii) (k : cont) : bool :=
  match n with
  | O => k p s
  | S n' => m p s (fun q t => rep_exact m n' q t k)
  end.

(** Greedy: one more iteration is tried before the continuation. *)
Fixpoint rep_upto (m : step) (n : nat) (p : nat) (s : list ascii) (k : cont) : bool :=
  match n with
  | O => k p s
  | S n' => m p s (fun q t => rep_upto m n' q t k) || k p s
  end.

Fixpoint run (r : re) (p : nat) (s : list ascii) (k : cont) {struct r} : bool :=
  match r with
  | Bol => bool_decide (p = 0%nat) && k p s
  | Eol => at_eol s && k p s
  | Chr c =>
      match s with
      | x :: s' => bool_decide (x = c) && k (S p) s'
      | [] => false
      end
  | Range lo hi =>
      match s with
      | x :: s' => in_range lo hi x && k (S p) s'
      | [] => false
      end
  | Seq r1 r2 => run r1 p s (fun q t => run r2 q t k)
  | Rep lo hi r' =>
      (lo <=? hi)%nat &&
      rep_exact (run r') lo p s (fun q t => rep_upto (run r') (hi - lo) q t k)
  end.

(** [re.match]: the pattern has to match at position 0; the match need not
    reach the end of the string.  The result is the truth value of the
    match object. *)
Definition re_match (r : re) (v : string) : bool :=
  run r 0 (list_ascii_of_string v) (fun _ _ => true).

(** Declarative meaning of a pattern: [sem r p s q t] when [r] can consume
    input from position [p] with [s] remaining to position [q] with [t]
    remaining. *)
Fixpoint iter (R : nat -> list ascii -> nat -> list ascii -> Prop)
    (n : nat) (p : nat) (s : list ascii) (q : nat) (t : list ascii) : Prop :=
  match n with
  | O => q = p /\ t = s
  | S n' => exists p1 s1, R p s p1 s1 /\ iter R n' p1 s1 q t
  end.

Fixpoint sem (r : re) (p : nat) (s : list ascii) (q : nat) (t : list ascii) : Prop :=
  match r with
  | Bol => p = 0%nat /\ q = p /\ t = s
  | Eol => (s = [] \/ s = [newline]) /\ q = p /\ t = s
  | Chr c => s = c :: t /\ q = S p
  | Range lo hi => exists x, s = x :: t /\ in_range lo hi x = true /\ q = S p
  | Seq r1 r2 => exists p1 s1, sem r1 p s p1 s1 /\ sem r2 p1 s1 q t
  | Rep lo hi r' => exists n, (lo <= n <= hi)%nat /\ iter (sem r') n p s q t
  end.

End Re.

(** ** Constants and functions of [interface.py] *)

(** [ipv4_re = re.compile('^(?:[0-9]{1,3}\.){3}[0-9]{1,3}$')] *)
Definition digit_re : Re.re := Re.Range "0" "9".

Definition ipv4_re : Re.re :=
  Re.Seq Re.Bol
    (Re.Seq (Re.Rep 3 3 (Re.Seq (Re.Rep 1 3 digit_re) (Re.Chr ".")))
       (Re.Seq (Re.Rep 1 3 digit_re) Re.Eol)).

(** [validate_ipv4] returns the match object or [False]; every caller only
    tests its truth value. *)
Definition validate_ipv4 (val : string) : bool := Re.re_match ipv4_re val.


(** [str.strip()] removes leading and trailing whitespace.  Characters are
    the code points below 256 here; among them [str.isspace] holds for
    9..13, 28..32, 133 and 160. *)
Definition is_space (c : ascii) : bool :=
  let n := nat_of_ascii c in
  ((9 <=? n)%nat && (n <=? 13)%nat) || ((28 <=? n)%nat && (n <=? 32)%nat)
  || (n =? 133)%nat || (n =? 160)%nat.

Fixpoint lstrip (s : list ascii) : list ascii :=
  match s with
  | c :: s' => if is_space c then lstrip s' else s
  | [] => []
  end.

Definition rstrip (s : list ascii) : list ascii := rev (lstrip (rev s)).

Definition strip (s : string) : string :=
  string_of_list_ascii (rstrip (lstrip (list_ascii_of_string s))).

(** [ipv4_from_file]: the body of the loop over the lines of the opened
    file.  The argument is the sequence of lines the file yields (each with
    its line end); a path that cannot be opened or read is dealt with where
    the function is called.  The decorator [validate_file_presence] belongs
    to [eavesarp.eavesarp] and both call sites reach the function only
    after [Path(...).exists()] held. *)
Fixpoint ipv4_from_file (lines : list string) : list string :=
  match lines with
  | [] => []
  | line :: rest =>
      let line := strip line in
      if validate_ipv4 line then line :: ipv4_from_file rest
      else ipv4_from_file rest
  end.

(** [COL_MAP], a dict literal: keys in insertion order. *)
Definition COL_MAP : list (string * string) :=
  [ ("arp_count", "ARP#");
    ("sender", "Sender");
    ("sender_mac", "Sender MAC");
    ("target", "Target");
    ("target_mac", "Target MAC");
    ("stale", "Stale");
    ("sender_ptr", "Sender PTR (PTR > FWD)");
    ("target_ptr", "Target PTR (PTR > FWD)");
    ("mitm_op", "Target IP != Forward IP") ].

Definition COL_ORDER : list string :=
  [ "arp_count"; "sender"; "target"; "stale"; "sender_ptr"; "target_ptr"; "mitm_op" ].

(** [d[k]] on a dict literal: [None] stands for [KeyError]. *)
Fixpoint dict_get {V : Type} (d : list (string * V)) (k : string) : option V :=
  match d with
  | [] => None
  | (k', v) :: d' => if String.eqb k k' then Some v else dict_get d' k
  end.

Definition dict_keys {V : Type} (d : list (string * V)) : list string := map fst d.

(** [k in l] for a list of strings. *)
Definition mem (k : string) (l : list string) : bool := existsb (String.eqb k) l.

(** [sep.join(l)] *)
Fixpoint join (sep : string) (l : list string) : string :=
  match l with
  | [] => ""
  | [x] => x
  | x :: l' => x ++ sep ++ join sep l'
  end.

(** ** Data of [eavesarp.eavesarp] that [interface.py] works on *)

(** Modelled from the spec: the class [Lists] is defined in
    [eavesarp.eavesarp], which is not among the sources.  The spec gives it
    two collections, [white] and [black]; [interface.py] uses both as Python
    lists ([+=], [append], [index], [__delitem__], [__len__]), and a new
    object holds two empty lists. *)
Record Lists : Type := mkLists { white : list string; black : list string }.

Definition new_Lists : Lists := mkLists [] [].

(** Modelled from the spec: [Lists.check] is not among the sources.  "If
    the whitelist is non-empty, membership in it is required; otherwise, if
    the blacklist is non-empty, absence from it is required; otherwise
    default-allow." *)
Definition Lists_check (l : Lists) (ip : string) : bool :=
  match white l, black l with
  | _ :: _, _ => mem ip (white l)
  | [], _ :: _ => negb (mem ip (black l))
  | [], [] => true
  end.

(** Modelled from the spec: the records behind [t.sender], [t.target] and
    the transaction itself are ORM classes of [eavesarp.eavesarp].  The
    field names [value] and [mac_address] are the ones [get_output] reads;
    the others are the spec's. *)
Record Host : Type := mkHost {
  value : string;
  mac_address : option string;
  ptr_hostname : option string;
  fwd_resolved_ip : option string
}.

Record Transaction : Type := mkTransaction {
  sender : Host;
  target : Host;
  count : nat;
  stale : bool;
  mitm_op : bool
}.

(** A colour profile: its three styling methods, as [get_output] calls
    them.  The class is part of [eavesarp.color]. *)
Record ColorProfile : Type := mkColorProfile {
  style_odd : list string -> list string;
  style_even : list string -> list string;
  style_header : list string -> list string
}.

(** Exceptions the embedded code can raise.  The last three are what
    [open] and the reading of a file raise for a directory, for a file
    without read permission and for a file that is no text. *)
Inductive exn : Type :=
| NameError (name : string)
| KeyError (key : string)
| AttributeError (name : string)
| IsADirectoryError
| PermissionError
| UnicodeDecodeError.

Inductive result (A : Type) : Type :=
| Ok (a : A)
| Raise (e : exn).
Arguments Ok {A} a.
Arguments Raise {A} e.

(** What is behind a path that exists: a text file with its lines, each
    with its line end, or something that [open] or the loop over the lines
    answers with an exception. *)
Inductive file : Type :=
| Readable (lines : list string)
| Unreadable (e : exn).

(** ** [get_output] *)

Definition row : Type := list string.

(** [rowdict]: a dict from sender address to the list of that sender's
    rows.  Python dicts iterate in insertion order, which decides the order
    of the table, so the dict is an association list with unique keys, a
    new key going to the end. *)
Definition rowdict : Type := list (string * list row).

Fixpoint rd_mem (k : string) (rd : rowdict) : bool :=
  match rd with
  | [] => false
  | (k', _) :: rd' => String.eqb k k' || rd_mem k rd'
  end.

(** [rowdict[k].append(r)] *)
Fixpoint rd_append (k : string) (r : row) (rd : rowdict) : rowdict :=
  match rd with
  | [] => []
  | (k', rs) :: rd' =>
      if String.eqb k k' then (k', rs ++ [r]) :: rd'
      else (k', rs) :: rd_append k r rd'
  end.

Definition no_transactions_message : string :=
  "- No accepted ARP requests captured" ++ String Re.newline
  "- If this is unexpected, check your whitelist/blacklist configuration".

Section GetOutput.

(** What [get_output] takes from outside [interface.py]: the database
    session and [get_transactions], the cell builders of the transaction
    class ([build_stale], and [bfh], which calls the builder of the given
    name), [Lists.check] and [tabulate]. *)
Variable Session : Type.
Variable Order : Type.
Variable get_transactions : Session -> Order -> list Transaction.
Variable build_stale : Transaction -> option ColorProfile -> string.
Variable bfh : Transaction -> string -> bool -> string.
Variable check : Lists -> string -> bool.
Variable tabulate : list row -> list string -> string.

(** The body of [for col in columns]. *)
Definition build_cell (color_profile : option ColorProfile) (t : Transaction)
    (new_sender : bool) (col : string) : string :=
  if String.eqb col "sender" then
    if new_sender then value (sender t) else ""
  else if String.eqb col "target" then value (target t)
  else if String.eqb col "stale" then build_stale t color_profile
  else
    let col := if String.eqb col "arp_count" then "count" else col in
    bfh t ("build_" ++ col) new_sender.

Definition build_row (color_profile : option ColorProfile) (columns : list string)
    (t : Transaction) (new_sender : bool) : row :=
  map (build_cell color_profile t new_sender) columns.

(** [lists and not lists.check(ip)]: [None] is falsy, a [Lists] object is
    truthy. *)
Definition rejected (lists : option Lists) (ip : string) : bool :=
  match lists with
  | Some l => negb (check l ip)
  | None => false
  end.

(** The body of [for t in transactions]. *)
Definition organize_step (sender_lists target_lists : option Lists)
    (color_profile : option ColorProfile) (columns : list string)
    (rd : rowdict) (t : Transaction) : rowdict :=
  let sender := value (sender t) in
  let target := value (target t) in
  if rejected sender_lists sender then rd
  else if rejected target_lists target then rd
  else
    let new_sender := negb (rd_mem sender rd) in
    let row := build_row color_profile columns t new_sender in
    if new_sender then rd ++ [(sender, [row])]
    else rd_append sender row rd.

Definition organize (sender_lists target_lists : option Lists)
    (color_profile : option ColorProfile) (columns : list string)
    (transactions : list Transaction) : rowdict :=
  fold_left (organize_step sender_lists target_lists color_profile columns)
    transactions [].

(** The body of [for sender,irows in rowdict.items()], on the pair of
    [rows] and [counter]. *)
Definition restructure_step (color_profile : option ColorProfile)
    (st : list row * nat) (item : string * list row) : list row * nat :=
  let '(rows, counter) := st in
  let counter := S counter in
  match color_profile with
  | Some cp =>
      if negb (counter mod 2 =? 0)%nat
      then (rows ++ map (style_odd cp) (snd item), counter)
      else (rows ++ map (style_even cp) (snd item), counter)
  | None => (rows ++ snd item, counter)
  end.

Definition restructure (color_profile : option ColorProfile) (rd : rowdict) : list row :=
  fst (fold_left (restructure_step color_profile) rd ([], 0%nat)).

(** [[COL_MAP[col] for col in columns]] *)
Fixpoint build_headers (columns : list string) : result (list string) :=
  match columns with
  | [] => Ok []
  | col :: columns' =>
      match dict_get COL_MAP col with
      | None => Raise (KeyError col)
      | Some h =>
          match build_headers columns' with
          | Ok hs => Ok (h :: hs)
          | Raise e => Raise e
          end
      end
  end.

(** [get_output].  The parameters [ptr], [reverse_resolve] and
    [arp_resolve] are never read by the body and are left out.  The cell
    builders are total here, so a column outside [COL_MAP] shows as the
    [KeyError] of the header lookup. *)
Definition get_output (db_session : Session) (order_by : Order)
    (sender_lists target_lists : option Lists)
    (color_profile : option ColorProfile) (columns : list string) : result string :=
  let transactions := get_transactions db_session order_by in
  match transactions with
  | [] => Ok no_transactions_message
  | _ :: _ =>
      let rowdict := organize sender_lists target_lists color_profile columns transactions in
      let rows := restructure color_profile rowdict in
      match build_headers columns with
      | Raise e => Raise e
      | Ok headers =>
          let headers :=
            match color_profile with
            | Some cp => style_header cp headers
            | None => headers
            end in
          Ok (tabulate rows headers)
      end
  end.

End GetOutput.

(** ** The command-line program

    The body under [if __name__ == '__main__'], after [parse_args].  A run
    is the sequence of its observable events and the way it ends. *)

Inductive command : Type := Analyze | Capture.

(** The parsed arguments.  [cmd] is [None] without a sub-command;
    [output_columns] is [None] when the namespace has no such attribute;
    the six filter arguments are [None] when not given ([nargs='+'], no
    default).  [color_profile] stands for [ColorProfiles[args.color_profile]],
    a lookup that cannot fail since [choices] restricts the name to the keys;
    the profile that disables colour is falsy. *)
Record Args : Type := mkArgs {
  cmd : option command;
  output_columns : option (list string);
  whitelist : option (list string);
  blacklist : option (list string);
  sender_whitelist : option (list string);
  target_whitelist : option (list string);
  sender_blacklist : option (list string);
  target_blacklist : option (list string);
  pcap_files : list string;
  sqlite_files : list string;
  database_output_file : string;
  color_profile : option ColorProfile
}.

Inductive event : Type :=
| Print (text : string)
| PrintHelp
| RunAnalyze (sender_lists target_lists : Lists)
| CreateDb (file : string)
| RunCapture (sender_lists target_lists : Lists).

Inductive outcome (A : Type) : Type :=
| Done (a : A)
| Exited
| Raised (e : exn).
Arguments Done {A} a.
Arguments Exited {A}.
Arguments Raised {A} e.

(** Events so far, and how the computation ended. *)
Definition M (A : Type) : Type := list event * outcome A.

#[global] Instance M_ret : MRet M := fun A a => ([], Done a).

#[global] Instance M_bind : MBind M := fun A B f m =>
  match m with
  | (tr, Done a) => let '(tr', o) := f a in (tr ++ tr', o)
  | (tr, Exited) => (tr, Exited)
  | (tr, Raised e) => (tr, Raised e)
  end.

Definition emit (e : event) : M unit := ([e], Done tt).
Definition print (text : string) : M unit := emit (Print text).
Definition exit {A : Type} : M A := ([], Exited).
Definition raise {A : Type} (e : exn) : M A := ([], Raised e).

Inductive list_type : Type := White | Black.
Inductive host_type : Type := Sender | Target.

(** [lists.__getattribute__(list_type)] *)
Definition get_list (lt : list_type) (l : Lists) : list string :=
  match lt with White => white l | Black => black l end.

(** [lst += values] on the list object held by that attribute *)
Definition extend_list (lt : list_type) (values : list string) (l : Lists) : Lists :=
  match lt with
  | White => mkLists (white l ++ values) (black l)
  | Black => mkLists (white l) (black l ++ values)
  end.

(** [list.index(val)]: the first position of [val]; [None] stands for
    [ValueError]. *)
Fixpoint index (val : string) (l : list string) : option nat :=
  match l with
  | [] => None
  | x :: l' => if String.eqb x val then Some 0%nat else S <$> index val l'
  end.

(** [list(set(l))]: the distinct elements of [l].  The order in which a
    Python set yields its elements depends on the hashes of the strings;
    [list_set] is one such order, and what is proved of the lists after the
    conflict resolution depends on no order ([set_enumeration] states what
    an order has to satisfy). *)
Definition list_set (l : list string) : list string :=
  elements (list_to_set l : gset string).

Definition set_enumeration (enum : list string -> list string) : Prop :=
  forall l, NoDup (enum l) /\ forall x, x ∈ enum l <-> x ∈ l.

(** The [while counter < var.white.__len__()] loop of the conflict
    resolution.  [white !! counter] is [Some val] exactly when
    [counter < len(white)], and then [val = white[counter]]. *)
Equations? conflict_loop (white black : list string) (counter : nat)
    : list string * list string by wf (length white - counter) lt :=
  conflict_loop white black counter with inspect (white !! counter) => {
    | exist _ (Some val) Hval with index val black => {
        | Some ind := conflict_loop (delete counter white) (delete ind black) counter;
        | None := conflict_loop white black (S counter) };
    | exist _ None _ := (white, black) }.
Proof.
  - apply lookup_lt_Some in Hval. rewrite length_delete; [lia|]. eauto using lookup_lt_is_Some_2.
  - apply lookup_lt_Some in Hval. lia.
Qed.

(** The body of [for handle in ['sender_lists','target_lists']], on the
    object [var], with [enum] for [list(set(...))]. *)
Definition resolve_conflicts_with (enum : list string -> list string) (var : Lists) : Lists :=
  let '(w, b) := conflict_loop (white var) (black var) 0 in
  mkLists (enum w) (enum b).

Definition resolve_conflicts (var : Lists) : Lists :=
  resolve_conflicts_with list_set var.

Section Main.

(** The file system, as the list population sees it: [fs path] is [None]
    when [Path(path).exists()] is false, and otherwise what is behind the
    path. *)
Variable fs : string -> option file.

Variable Session : Type.
Variable Order : Type.
Variable desc : Order.
Variable get_transactions : Session -> Order -> list Transaction.
Variable build_stale : Transaction -> option ColorProfile -> string.
Variable bfh : Transaction -> string -> bool -> string.
Variable check : Lists -> string -> bool.
Variable tabulate : list row -> list string -> string.

(** The session [create_db] returns on the output database once
    [analyze] has run with these arguments and lists. *)
Variable analyzed_db : Args -> Lists -> Lists -> Session.

(** *** Checking column order values *)

Definition check_columns (args : Args) : M unit :=
  match output_columns args with
  | None => mret tt
  | Some [] =>
      print "- Output columns are required";;
      print "Exiting!";;
      exit
  | Some columns =>
      let vals := dict_keys COL_MAP in
      let bad := List.filter (fun v => negb (mem v vals)) columns in
      match bad with
      | [] => mret tt
      | _ :: _ =>
          print ("- Invalid column values provided: " ++ " " ++ join "," bad);;
          print ("- Valid values: " ++ " " ++ join "," vals);;
          print "Exiting!";;
          exit
      end
  end.

(** *** Populating the general white and black lists *)

(** Size of the work a value of [vals] stands for: one step for a value,
    and for a file also one step for each address it contributes. *)
Definition work (ival : string) : nat :=
  if validate_ipv4 ival then 1
  else match fs ival with
       | Some (Readable lines) => 2 + length (ipv4_from_file lines)
       | Some (Unreadable _) => 1
       | None => 1
       end.

Fixpoint total_work (vals : list string) : nat :=
  match vals with
  | [] => 0
  | ival :: rest => work ival + total_work rest
  end.

(** [for ival in vals], where the body may extend [vals]
    ([vals += ipv4_from_file(ival)]): the values still to visit are a work
    list and the addresses of a file go to its end.  The warning of the
    source formats the name [line], which is bound by no statement that
    ran before (its first binding is the loop of the per-argument
    population); evaluating the f-string raises [NameError] before
    anything is printed.  For a path that exists and cannot be read, the
    exception of [ipv4_from_file] ends the loop. *)
Equations? global_values (vals : list string) (values : list string)
    : M (list string) by wf (total_work vals) lt :=
  global_values [] values := mret values;
  global_values (ival :: rest) values with inspect (validate_ipv4 ival) => {
    | exist _ true Hvalid := global_values rest (values ++ [ival]);
    | exist _ false Hinvalid with inspect (fs ival) => {
        | exist _ None _ := raise (NameError "line");
        | exist _ (Some (Unreadable e)) _ := raise e;
        | exist _ (Some (Readable lines)) Hfile :=
            global_values (rest ++ ipv4_from_file lines) values } }.
Proof.
  - change (total_work rest < work ival + total_work rest).
    unfold work. rewrite Hvalid. lia.
  - change (total_work (rest ++ ipv4_from_file lines) < work ival + total_work rest).
    assert (Happ : forall l1 l2, total_work (l1 ++ l2) = total_work l1 + total_work l2).
    { clear. induction l1 as [|v l1 IH]; intros l2; cbn [app total_work];
        [reflexivity | rewrite IH; lia]. }
    assert (Hall : forall ls, total_work (ipv4_from_file ls) = length (ipv4_from_file ls)).
    { clear. induction ls as [|l ls IH]; [reflexivity|].
      cbn [ipv4_from_file]. destruct (validate_ipv4 (strip l)) eqn:Hv; [|exact IH].
      cbn [total_work length]. rewrite IH. unfold work. rewrite Hv. reflexivity. }
    rewrite Happ, Hall. unfold work. rewrite Hinvalid, Hfile. lia.
Qed.

(** The body of [for list_type in ['white','black']], on the pair of
    [sender_lists] and [target_lists]. *)
Definition global_arg (args : Args) (lt : list_type) : option (list string) :=
  match lt with White => whitelist args | Black => blacklist args end.

Definition populate_global_list (args : Args) (lt : list_type)
    (lists : Lists * Lists) : M (Lists * Lists) :=
  match global_arg args lt with
  | None | Some [] => mret lists
  | Some vals =>
      values ← global_values vals [];
      mret (extend_list lt values (fst lists), extend_list lt values (snd lists))
  end.

Definition populate_global (args : Args) (lists : Lists * Lists) : M (Lists * Lists) :=
  lists ← populate_global_list args White lists;
  populate_global_list args Black lists.

(** *** Populating the sender and target lists *)

(** [for line in arg_val], on the list object [lst].  For a path that
    exists and cannot be read, the exception of [ipv4_from_file] ends the
    loop. *)
Fixpoint populate_list (arg_val : list string) (lst : list string) : M (list string) :=
  match arg_val with
  | [] => mret lst
  | line :: rest =>
      if validate_ipv4 line then populate_list rest (lst ++ [line])
      else
        match fs line with
        | None =>
            print ("Invalid ipv4 address and unknown file, skipping: " ++ line);;
            populate_list rest lst
        | Some (Readable lines) => populate_list rest (lst ++ ipv4_from_file lines)
        | Some (Unreadable e) => raise e
        end
  end.

(** The arguments whose name [reg_list] matches, in the order of the
    namespace, each with the [host_type] and [list_type] the match
    yields. *)
Definition list_arguments (args : Args)
    : list (host_type * list_type * option (list string)) :=
  [ (Sender, White, sender_whitelist args);
    (Target, White, target_whitelist args);
    (Sender, Black, sender_blacklist args);
    (Target, Black, target_blacklist args) ].

Definition set_list (lt : list_type) (lst : list string) (l : Lists) : Lists :=
  match lt with
  | White => mkLists lst (black l)
  | Black => mkLists (white l) lst
  end.

(** The body of [for arg_handle, arg_val in args.__dict__.items()].  The
    final [lst = list(set(lst))] rebinds the local name only and leaves
    the list object of [sender_lists] or [target_lists] as it is. *)
Definition populate_argument (lists : Lists * Lists)
    (arg : host_type * list_type * option (list string)) : M (Lists * Lists) :=
  let '(ht, lt, arg_val) := arg in
  match arg_val with
  | None | Some [] => mret lists
  | Some arg_val =>
      match ht with
      | Sender =>
          lst ← populate_list arg_val (get_list lt (fst lists));
          mret (set_list lt lst (fst lists), snd lists)
      | Target =>
          lst ← populate_list arg_val (get_list lt (snd lists));
          mret (fst lists, set_list lt lst (snd lists))
      end
  end.

Fixpoint populate_arguments (arguments : list (host_type * list_type * option (list string)))
    (lists : Lists * Lists) : M (Lists * Lists) :=
  match arguments with
  | [] => mret lists
  | arg :: arguments' =>
      lists ← populate_argument lists arg;
      populate_arguments arguments' lists
  end.

(** Everything up to the conflict resolution: both objects start empty,
    the general lists are read, then the sender and target lists. *)
Definition populate (args : Args) : M (Lists * Lists) :=
  lists ← populate_global args (new_Lists, new_Lists);
  populate_arguments (list_arguments args) lists.

(** List population and conflict resolution. *)
Definition build_lists (args : Args) : M (Lists * Lists) :=
  lists ← populate args;
  mret (resolve_conflicts (fst lists), resolve_conflicts (snd lists)).

(** *** Executing the command *)

Definition print_output (out : result string) : M unit :=
  match out with
  | Ok text => print text
  | Raise e => raise e
  end.

Definition run_analyze (args : Args) (sender_lists target_lists : Lists) : M unit :=
  match pcap_files args, sqlite_files args with
  | [], [] =>
      print "- Analyze command requires at least one input file.";;
      exit
  | _, _ =>
      emit (RunAnalyze sender_lists target_lists);;
      emit (CreateDb (database_output_file args));;
      let sess := analyzed_db args sender_lists target_lists in
      match output_columns args with
      | None => raise (AttributeError "output_columns")
      | Some columns =>
          print_output
            (get_output Session Order get_transactions build_stale bfh check tabulate
               sess desc (Some sender_lists) (Some target_lists)
               (color_profile args) columns)
      end
  end.

(** The capture session (worker pool, sniffing loop, interrupt handling,
    output files) is entered with the two lists; it is not described
    further. *)
Definition run_capture (args : Args) (sender_lists target_lists : Lists) : M unit :=
  emit (RunCapture sender_lists target_lists).

Definition main (args : Args) : M unit :=
  match cmd args with
  | None => emit PrintHelp;; exit
  | Some c =>
      check_columns args;;
      lists ← build_lists args;
      match c with
      | Analyze => run_analyze args (fst lists) (snd lists)
      | Capture => run_capture args (fst lists) (snd lists)
      end
  end.

End Main.

(** ** Resolver *)

Module Resolver.

Section Enrich.

(** Modelled from the spec: the resolution transport is called by the
    engine and lies outside of it.  [reverse_lookup ip] is the hostname of
    the pointer record of [ip], [forward_lookup name] the address [name]
    resolves to; [None] is a timeout or a lookup error. *)
Variable reverse_lookup : string -> option string.
Variable forward_lookup : string -> option string.

(** Whether reverse resolution is enabled. *)
Variable reverse_enabled : bool.

Definition set_ptr_hostname (h : Host) (name : option string) : Host :=
  mkHost (value h) (mac_address h) name (fwd_resolved_ip h).

Definition set_fwd_resolved_ip (h : Host) (ip : option string) : Host :=
  mkHost (value h) (mac_address h) (ptr_hostname h) ip.

(** Modelled from the spec: the resolver of [eavesarp.eavesarp] is not
    among the sources.  Step 1 of [enrich]: "Reverse-resolve sender.ip
    and target.ip to hostnames if not already cached and if reverse
    resolution is enabled; cache per Host." *)
Definition reverse_step (h : Host) : Host :=
  match ptr_hostname h with
  | Some _ => h
  | None =>
      if reverse_enabled then set_ptr_hostname h (reverse_lookup (value h))
      else h
  end.

(** Modelled from the spec: the consistency check of steps 2 and 3 of
    [enrich], on a host after step 1: "If [the] reverse resolution
    succeeded, forward-resolve the returned hostname and compare the
    result to [the host's] ip."  The result is the host with the forward
    result cached and whether "a mismatch, or a failure of the forward
    step after a successful reverse step" was seen. *)
Definition forward_step (h : Host) : Host * bool :=
  match ptr_hostname h with
  | Some name =>
      let fwd := forward_lookup name in
      (set_fwd_resolved_ip h fwd,
       match fwd with
       | Some ip => negb (String.eqb ip (value h))
       | None => true
       end)
  | None => (h, false)
  end.

(** Modelled from the spec: steps 1 to 3 of [enrich].  The flag is written
    with the outcome of the check on the target: "mitm_op is true iff
    target's reverse resolution succeeds and the subsequent forward
    resolution either fails or yields an address different from target.ip;
    it is false whenever the reverse resolution itself fails".  The check
    on the sender is "not folded into mitm_op".  Step 4 (active probing)
    writes [stale] only and is left out. *)
Definition enrich (t : Transaction) : Transaction :=
  let '(s, _) := forward_step (reverse_step (sender t)) in
  let '(g, anomalous) := forward_step (reverse_step (target t)) in
  mkTransaction s g (count t) (stale t) anomalous.

End Enrich.

End Resolver.

(** ** Notions used to state the properties *)

Definition is_digit (c : ascii) : bool := Re.in_range "0" "9" c.

(** One to three decimal digits. *)
Definition digit_group (g : list ascii) : Prop :=
  (1 <= length g <= 3)%nat /\ Forall (fun c => is_digit c = true) g.

(** Four groups of one to three decimal digits separated by dots, and
    possibly one newline after them. *)
Definition dotted_groups (v : string) : Prop :=
  exists a b c d tail,
    list_ascii_of_string v
      = a ++ "."%char :: b ++ "."%char :: c ++ "."%char :: d ++ tail
    /\ digit_group a /\ digit_group b /\ digit_group c /\ digit_group d
    /\ (tail = [] \/ tail = [Re.newline]).

(** The strict dotted quad of the specification: four dot-separated decimal
    octets, each in the range 0 to 255. *)
Fixpoint split_dots (s : list ascii) : list (list ascii) :=
  match s with
  | [] => [[]]
  | c :: s' =>
      if Ascii.eqb c "."%char then [] :: split_dots s'
      else match split_dots s' with
           | g :: gs => (c :: g) :: gs
           | [] => [[c]]
           end
  end.

Definition decimal_value (g : list ascii) : nat :=
  fold_left (fun n c => (10 * n + (nat_of_ascii c - 48))%nat) g 0%nat.

Definition is_octet (g : list ascii) : bool :=
  match g with
  | [] => false
  | _ :: _ => forallb is_digit g && (decimal_value g <=? 255)%nat
  end.

Definition strict_dotted_quad (v : string) : bool :=
  match split_dots (list_ascii_of_string v) with
  | [a; b; c; d] => is_octet a && is_octet b && is_octet c && is_octet d
  | _ => false
  end.

(** [contains sub s]: [sub] occurs in [s]. *)
Fixpoint contains (sub s : string) : bool :=
  String.prefix sub s ||
  match s with
  | EmptyString => false
  | String _ s' => contains sub s'
  end.

(** A value counts as supplied by the values [l] of an allow or deny
    argument when it is a valid address and either one of [l] itself, or the
    stripped form of a line of a file that [l] names.  A value of [l] that
    is a valid address is never read as a file name. *)
Definition supplied_by (fs : string -> option file)
    (l : list string) (v : string) : Prop :=
  validate_ipv4 v = true /\
  (v ∈ l \/
   exists f lines line,
     f ∈ l /\ validate_ipv4 f = false /\ fs f = Some (Readable lines) /\
     line ∈ lines /\ v = strip line).

Definition supplied (fs : string -> option file)
    (vals : option (list string)) (v : string) : Prop :=
  exists l, vals = Some l /\ supplied_by fs l v.

(** A value that is neither an address nor an existing file. *)
Definition unusable (fs : string -> option file) (v : string) : Prop :=
  validate_ipv4 v = false /\ fs v = None.

Definition unusableb (fs : string -> option file) (v : string) : bool :=
  negb (validate_ipv4 v) && match fs v with None => true | Some _ => false end.

(** The exception that reading a value raises: the value is no address
    and names a path that exists and cannot be read. *)
Definition read_error (fs : string -> option file) (v : string) : option exn :=
  if validate_ipv4 v then None
  else match fs v with
       | Some (Unreadable e) => Some e
       | _ => None
       end.

(** A value that is an address or names a readable file. *)
Definition openable (fs : string -> option file) (v : string) : bool :=
  validate_ipv4 v
  || match fs v with Some (Readable _) => true | _ => false end.

(** The exception that visiting a value of a general argument raises:
    [NameError] for a value that is neither an address nor an existing
    path, and the exception of the reading for a path that exists and
    cannot be read. *)
Definition global_error (fs : string -> option file) (v : string) : option exn :=
  if validate_ipv4 v then None
  else match fs v with
       | None => Some (NameError "line")
       | Some (Unreadable e) => Some e
       | Some (Readable _) => None
       end.

(** The exception of the first value that has one. *)
Fixpoint first_error (err : string -> option exn) (vals : list string) : option exn :=
  match vals with
  | [] => None
  | v :: vals' =>
      match err v with
      | Some e => Some e
      | None => first_error err vals'
      end
  end.

(** The exceptions of the list population: [NameError] for the name
    [line], and the exception of reading a path that is no address. *)
Definition raisable (fs : string -> option file) (e : exn) : Prop :=
  e = NameError "line"
  \/ exists v, validate_ipv4 v = false /\ fs v = Some (Unreadable e).

(** The computation returns when [b] holds, and raises an exception of
    the kind [P] otherwise. *)
Definition completes_if {A : Type} (b : bool) (P : exn -> Prop) (m : M A) : Prop :=
  if b then exists tr a, m = (tr, Done a)
  else exists tr e, m = (tr, Raised e) /\ P e.

(** The values before the first one that cannot be read, and the
    exception of that one. *)
Fixpoint until_read_error (fs : string -> option file) (vals : list string)
    : list string * option exn :=
  match vals with
  | [] => ([], None)
  | v :: vals' =>
      match read_error fs v with
      | Some e => ([], Some e)
      | None => let '(pre, e) := until_read_error fs vals' in (v :: pre, e)
      end
  end.

(** The warning of the per-argument population for the value [v]. *)
Definition warning (v : string) : event :=
  Print ("Invalid ipv4 address and unknown file, skipping: " ++ v).

(** The list of the given kind in the pair of [sender_lists] and
    [target_lists]. *)
Definition the_list (ht : host_type) (lt : list_type) (lists : Lists * Lists) : list string :=
  get_list lt (match ht with Sender => fst lists | Target => snd lists end).

(** The sender- or target-specific argument that feeds that list. *)
Definition list_arg (args : Args) (ht : host_type) (lt : list_type) : option (list string) :=
  match ht, lt with
  | Sender, White => sender_whitelist args
  | Target, White => target_whitelist args
  | Sender, Black => sender_blacklist args
  | Target, Black => target_blacklist args
  end.

(** The events that ingest or render. *)
Definition is_processing (e : event) : bool :=
  match e with
  | RunAnalyze _ _ | CreateDb _ | RunCapture _ _ => true
  | Print _ | PrintHelp => false
  end.

(** A computation whose events neither ingest nor render. *)
Definition quiet {A : Type} (m : M A) : Prop :=
  Forall (fun e => is_processing e = false) (fst m).

(** The number of rows a [rowdict] holds. *)
Fixpoint total_rows (rd : rowdict) : nat :=
  match rd with
  | [] => 0
  | (_, irows) :: rd' => length irows + total_rows rd'
  end.

(** Every name of [columns] is a key of [COL_MAP]. *)
Definition valid_columns (columns : list string) : bool :=
  forallb (fun col => mem col (dict_keys COL_MAP)) columns.

(** The senders of a list of transactions, each once, in the order of
    first appearance. *)
Fixpoint senders_in_order (txs : list Transaction) : list string :=
  match txs with
  | [] => []
  | t :: txs' =>
      value (sender t)
      :: List.filter (fun s => negb (String.eqb s (value (sender t))))
           (senders_in_order txs')
  end.

(** The transactions of one sender, in their order. *)
Definition transactions_of (s : string) (txs : list Transaction) : list Transaction :=
  List.filter (fun t => String.eqb (value (sender t)) s) txs.

Section Grouping.

Variable build_stale : Transaction -> option ColorProfile -> string.
Variable bfh : Transaction -> string -> bool -> string.
Variable check : Lists -> string -> bool.

(** A transaction that both lists let through. *)
Definition accepted (sender_lists target_lists : option Lists) (t : Transaction) : bool :=
  negb (rejected check sender_lists (value (sender t)))
  && negb (rejected check target_lists (value (target t))).

(** The transactions of a session that the table shows. *)
Definition shown (sender_lists target_lists : option Lists)
    (transactions : list Transaction) : list Transaction :=
  List.filter (accepted sender_lists target_lists) transactions.

(** The rows of one sender: the first is built as the row of a new
    sender, the others are not. *)
Definition group_rows (color_profile : option ColorProfile) (columns : list string)
    (ts : list Transaction) : list row :=
  match ts with
  | [] => []
  | t :: ts' =>
      build_row build_stale bfh color_profile columns t true
      :: map (fun t' => build_row build_stale bfh color_profile columns t' false) ts'
  end.

(** The transactions grouped by sender. *)
Definition grouped (color_profile : option ColorProfile) (columns : list string)
    (txs : list Transaction) : rowdict :=
  map (fun s => (s, group_rows color_profile columns (transactions_of s txs)))
    (senders_in_order txs).

(** The rows of the [n]-th group (counted from 1) as they go into the
    table. *)
Definition styled_group (color_profile : option ColorProfile) (n : nat)
    (rows : list row) : list row :=
  match color_profile with
  | Some cp => if Nat.odd n then map (style_odd cp) rows else map (style_even cp) rows
  | None => rows
  end.

Definition styled_groups (color_profile : option ColorProfile)
    (groups : list (list row)) : list row :=
  concat (imap (fun i rows => styled_group color_profile (S i) rows) groups).

End Grouping.

(** What one value of a sender or target argument adds to its list: the
    value itself when it is an address, the addresses of the file it names
    otherwise, and nothing when it is unusable. *)
Definition contribution (fs : string -> option file) (v : string) : list string :=
  if validate_ipv4 v then [v]
  else match fs v with
       | Some (Readable lines) => ipv4_from_file lines
       | _ => []
       end.

(** The addresses of the file that a value names, for a value that is not
    itself an address. *)
Definition file_addresses (fs : string -> option file) (v : string) : list string :=
  if validate_ipv4 v then []
  else match fs v with
       | Some (Readable lines) => ipv4_from_file lines
       | _ => []
       end.

(** How often [x] occurs in [l]. *)
Definition occurrences (x : string) (l : list string) : nat :=
  length (List.filter (String.eqb x) l).

(** No value of a sender or target argument raises when it is read. *)
Definition without_read_error (fs : string -> option file) (vals : option (list string)) : bool :=
  forallb (fun v => match read_error fs v with None => true | Some _ => false end)
    (default [] vals).

(** The lists can be built: every value of the two general arguments is
    an address or names a readable file, and no value of the four other
    arguments names a path that cannot be read. *)
Definition lists_buildable (fs : string -> option file) (args : Args) : bool :=
  forallb (openable fs) (default [] (whitelist args))
  && forallb (openable fs) (default [] (blacklist args))
  && without_read_error fs (sender_whitelist args)
  && without_read_error fs (target_whitelist args)
  && without_read_error fs (sender_blacklist args)
  && without_read_error fs (target_blacklist args).


(** The lists that a run hands over to the analysis or to the capture. *)
Definition handed_over (sender_lists target_lists : Lists) (tr : list event) : Prop :=
  RunAnalyze sender_lists target_lists ∈ tr \/ RunCapture sender_lists target_lists ∈ tr.

(** The addresses supplied for one of the four lists, by the general
    argument of its kind or by its own argument. *)
Definition supplied_to (fs : string -> option file) (args : Args)
    (ht : host_type) (lt : list_type) (v : string) : Prop :=
  supplied fs (global_arg args lt) v \/ supplied fs (list_arg args ht lt) v.

Definition opposite (lt : list_type) : list_type :=
  match lt with White => Black | Black => White end.

(** ** Example inputs *)

Module Examples.

(** A file system with one address file and the current directory. *)
Definition fs (path : string) : option file :=
  if String.eqb path "hosts.txt"
  then Some (Readable [ ("10.0.0.7" ++ String Re.newline "")%string;
                        ("not an address" ++ String Re.newline "")%string;
                        " 10.0.0.8 " ])
  else if String.eqb path "." then Some (Unreadable IsADirectoryError)
  else None.

(** [analyze -pfs capture.pcap -wl 10.0.0.1 hosts.txt -sw 10.0.0.1 10.0.0.5
    -sb 10.0.0.5 nothing-here -tb 10.0.0.7 10.0.0.9 10.0.0.9] *)
Definition args : Args :=
  {| cmd := Some Analyze;
     output_columns := Some COL_ORDER;
     whitelist := Some ["10.0.0.1"; "hosts.txt"];
     blacklist := None;
     sender_whitelist := Some ["10.0.0.1"; "10.0.0.5"];
     target_whitelist := None;
     sender_blacklist := Some ["10.0.0.5"; "nothing-here"];
     target_blacklist := Some ["10.0.0.7"; "10.0.0.9"; "10.0.0.9"];
     pcap_files := ["capture.pcap"];
     sqlite_files := [];
     database_output_file := "eavesarp_dump.db";
     color_profile := None |}.

(** [capture -wl bogus], where no file is named [bogus]. *)
Definition args_bogus : Args :=
  {| cmd := Some Capture;
     output_columns := Some COL_ORDER;
     whitelist := Some ["bogus"];
     blacklist := None;
     sender_whitelist := None;
     target_whitelist := None;
     sender_blacklist := None;
     target_blacklist := None;
     pcap_files := [];
     sqlite_files := [];
     database_output_file := "eavesarp.db";
     color_profile := None |}.

(** [analyze -pfs capture.pcap -oc sender colour] *)
Definition args_bad_column : Args :=
  {| cmd := Some Analyze;
     output_columns := Some ["sender"; "colour"];
     whitelist := None;
     blacklist := None;
     sender_whitelist := None;
     target_whitelist := None;
     sender_blacklist := None;
     target_blacklist := None;
     pcap_files := ["capture.pcap"];
     sqlite_files := [];
     database_output_file := "eavesarp_dump.db";
     color_profile := None |}.

(** [analyze -sw .], without any input file. *)
Definition args_directory : Args :=
  {| cmd := Some Analyze;
     output_columns := Some COL_ORDER;
     whitelist := None;
     blacklist := None;
     sender_whitelist := Some ["."];
     target_whitelist := None;
     sender_blacklist := None;
     target_blacklist := None;
     pcap_files := [];
     sqlite_files := [];
     database_output_file := "eavesarp_dump.db";
     color_profile := None |}.


(** A session is the list of its transactions. *)
Definition Session : Type := list Transaction.

Definition get_transactions (db_session : Session) (order_by : unit) : list Transaction :=
  db_session.

Definition build_stale (t : Transaction) (color_profile : option ColorProfile) : string :=
  if stale t then "[STALE]" else "".

Definition bfh (t : Transaction) (handle : string) (new_sender : bool) : string :=
  if String.eqb handle "build_mitm_op" then (if mitm_op t then "True" else "False")
  else handle.

Definition tabulate (rows : list row) (headers : list string) : string :=
  join (String Re.newline "") (map (join " | ") (headers :: rows)).

Definition analyzed_db (args : Args) (sender_lists target_lists : Lists) : Session := [].

Definition host (ip : string) : Host := mkHost ip None None None.

Definition transaction (s g : string) : Transaction :=
  mkTransaction (host s) (host g) 1 false false.

Definition session : Session :=
  [ transaction "10.0.0.5" "10.0.0.9";
    transaction "10.0.0.6" "10.0.0.9";
    transaction "10.0.0.5" "10.0.0.10";
    transaction "10.0.0.5" "10.0.0.11" ].

(** Lists that let every sender through and refuse the target
    [10.0.0.10]. *)
Definition target_lists : Lists := mkLists [] ["10.0.0.10"].

(** Naming records: [10.0.0.9] is [printer.local], which resolves to
    another address. *)
Definition reverse_lookup (ip : string) : option string :=
  if String.eqb ip "10.0.0.9" then Some "printer.local" else None.

Definition forward_lookup (name : string) : option string :=
  if String.eqb name "printer.local" then Some "10.0.0.50" else None.

End Examples.

(** * Properties *)

(** ** The matcher against the meaning of patterns *)

Module ReFacts.
Import Re.

Section Repeat.

Variable m : step.
Variable R : nat -> list ascii -> nat -> list ascii -> Prop.
Hypothesis m_spec : forall p s k,
  m p s k = true <-> exists q t, R p s q t /\ k q t = true.

Lemma rep_exact_spec n : forall p s k,
  rep_exact m n p s k = true <-> exists q t, iter R n p s q t /\ k q t = true.
Proof.
  induction n as [|n IH]; intros p s k; cbn [rep_exact iter].
  - split.
    + intros Hk. exists p, s. auto.
    + intros (q & t & [-> ->] & Hk). exact Hk.
  - rewrite m_spec. split.
    + intros (p1 & s1 & HR & Hrest). apply IH in Hrest as (q & t & Hit & Hk).
      exists q, t. split; [|exact Hk]. exists p1, s1. auto.
    + intros (q & t & (p1 & s1 & HR & Hit) & Hk).
      exists p1, s1. split; [exact HR|]. apply IH. eauto.
Qed.

Lemma rep_upto_spec n : forall p s k,
  rep_upto m n p s k = true <->
  exists j q t, (j <= n)%nat /\ iter R j p s q t /\ k q t = true.
Proof.
  induction n as [|n IH]; intros p s k; cbn [rep_upto].
  - split.
    + intros Hk. exists 0%nat, p, s. cbn. auto.
    + intros (j & q & t & Hj & Hit & Hk).
      assert (j = 0%nat) as -> by lia. destruct Hit as [-> ->]. exact Hk.
  - rewrite orb_true_iff, m_spec. split.
    + intros [(p1 & s1 & HR & Hrest) | Hk].
      * apply IH in Hrest as (j & q & t & Hj & Hit & Hk).
        exists (S j), q, t. split; [lia|]. split; [|exact Hk].
        exists p1, s1. auto.
      * exists 0%nat, p, s. cbn. split; [lia|]. auto.
    + intros (j & q & t & Hj & Hit & Hk). destruct j as [|j].
      * right. destruct Hit as [-> ->]. exact Hk.
      * left. destruct Hit as (p1 & s1 & HR & Hit).
        exists p1, s1. split; [exact HR|]. apply IH.
        exists j, q, t. split; [lia|]. auto.
Qed.

Lemma iter_add a b : forall p s q t,
  iter R (a + b) p s q t <->
  exists p1 s1, iter R a p s p1 s1 /\ iter R b p1 s1 q t.
Proof.
  induction a as [|a IH]; intros p s q t; cbn [Nat.add iter].
  - split.
    + intros H. exists p, s. auto.
    + intros (p1 & s1 & [-> ->] & H). exact H.
  - split.
    + intros (p1 & s1 & HR & Hit). apply IH in Hit as (p2 & s2 & Ha & Hb).
      exists p2, s2. split; [|exact Hb]. exists p1, s1. auto.
    + intros (p2 & s2 & (p1 & s1 & HR & Ha) & Hb).
      exists p1, s1. split; [exact HR|]. apply IH. eauto.
Qed.

End Repeat.

Lemma at_eol_spec s : at_eol s = true <-> s = [] \/ s = [newline].
Proof.
  destruct s as [|c [|c' s]]; cbn.
  - tauto.
  - rewrite bool_decide_eq_true. split.
    + intros ->. auto.
    + intros [H|H]; congruence.
  - split; [discriminate|]. intros [H|H]; discriminate.
Qed.

(** The matcher succeeds exactly when the pattern has a parse after which
    the continuation succeeds. *)
Lemma run_spec r : forall p s k,
  run r p s k = true <-> exists q t, sem r p s q t /\ k q t = true.
Proof.
  induction r as [| |c|lo hi|r1 IH1 r2 IH2|lo hi r IH]; intros p s k; cbn [run sem].
  - rewrite andb_true_iff, bool_decide_eq_true. split.
    + intros [-> Hk]. exists 0%nat, s. auto.
    + intros (q & t & (-> & -> & ->) & Hk). auto.
  - rewrite andb_true_iff, at_eol_spec. split.
    + intros [He Hk]. exists p, s. auto.
    + intros (q & t & (He & -> & ->) & Hk). auto.
  - destruct s as [|x s].
    + split; [discriminate|]. intros (q & t & [H _] & _). discriminate.
    + rewrite andb_true_iff, bool_decide_eq_true. split.
      * intros [-> Hk]. exists (S p), s. auto.
      * intros (q & t & [H ->] & Hk). injection H as -> ->. auto.
  - destruct s as [|x s].
    + split; [discriminate|]. intros (q & t & (y & H & _) & _). discriminate.
    + rewrite andb_true_iff. split.
      * intros [Hx Hk]. exists (S p), s. split; [|exact Hk]. exists x. auto.
      * intros (q & t & (y & H & Hy & ->) & Hk). injection H as -> ->. auto.
  - rewrite IH1. split.
    + intros (p1 & s1 & H1 & H2). apply IH2 in H2 as (q & t & H2 & Hk).
      exists q, t. split; [|exact Hk]. exists p1, s1. auto.
    + intros (q & t & (p1 & s1 & H1 & H2) & Hk).
      exists p1, s1. split; [exact H1|]. apply IH2. eauto.
  - rewrite andb_true_iff, Nat.leb_le, (rep_exact_spec _ _ IH). split.
    + intros (Hle & p1 & s1 & Hex & Hup).
      apply (rep_upto_spec _ _ IH) in Hup as (j & q & t & Hj & Hit & Hk).
      exists q, t. split; [|exact Hk]. exists (lo + j)%nat. split; [lia|].
      apply iter_add. eauto.
    + intros (q & t & (n & Hn & Hit) & Hk). split; [lia|].
      replace n with (lo + (n - lo))%nat in Hit by lia.
      apply iter_add in Hit as (p1 & s1 & Ha & Hb).
      exists p1, s1. split; [exact Ha|]. apply (rep_upto_spec _ _ IH).
      exists (n - lo)%nat, q, t. split; [lia|]. auto.
Qed.

Lemma re_match_spec r v :
  re_match r v = true <-> exists q t, sem r 0 (list_ascii_of_string v) q t.
Proof.
  unfold re_match. rewrite run_spec. split.
  - intros (q & t & H & _). eauto.
  - intros (q & t & H). eauto.
Qed.

End ReFacts.

(** ** [validate_ipv4] *)

Section ValidateIpv4.
Import Re.

Lemma iter_digits n : forall p s q t,
iter (sem digit_re) n p s q t <->
exists g, s = g ++ t /\ length g = n /\
          Forall (fun c => is_digit c = true) g /\ q = (p + n)%nat.
Proof.
induction n as [|n IH]; intros p s q t; cbn [iter].
- split.
  + intros [-> ->]. exists []. repeat split; auto.
  + intros (g & -> & Hlen & _ & ->). destruct g; [|discriminate]. split; [lia|reflexivity].
- split.
  + intros (p1 & s1 & (x & -> & Hx & ->) & Hit).
    apply IH in Hit as (g & -> & Hlen & Hg & ->).
    exists (x :: g). cbn. repeat split; [lia| |lia]. constructor; assumption.
  + intros (g & -> & Hlen & Hg & ->). destruct g as [|x g]; [discriminate|].
    inversion Hg as [|? ? Hx Hg']; subst. cbn in Hlen.
    exists (S p), (g ++ t). split; [exists x; auto|].
    apply IH. exists g. repeat split; [lia|assumption|lia].
Qed.

Lemma sem_group p s q t :
sem (Rep 1 3 digit_re) p s q t <->
exists g, digit_group g /\ s = g ++ t /\ q = (p + length g)%nat.
Proof.
cbn [sem]. split.
- intros (n & Hn & Hit). apply iter_digits in Hit as (g & -> & Hlen & Hg & ->).
  exists g. unfold digit_group. rewrite Hlen. auto.
- intros (g & [Hlen Hg] & -> & ->). exists (length g). split; [exact Hlen|].
  apply iter_digits. exists g. auto.
Qed.

Lemma sem_group_dot p s q t :
sem (Seq (Rep 1 3 digit_re) (Chr ".")) p s q t <->
exists g, digit_group g /\ s = g ++ "."%char :: t /\ q = S (p + length g).
Proof.
change (sem (Seq (Rep 1 3 digit_re) (Chr ".")) p s q t)
  with (exists p1 s1, sem (Rep 1 3 digit_re) p s p1 s1 /\ sem (Chr ".") p1 s1 q t).
split.
- intros (p1 & s1 & Hg & -> & ->). apply sem_group in Hg as (g & Hg & -> & ->).
  exists g. auto.
- intros (g & Hg & -> & ->). exists (p + length g)%nat, ("."%char :: t).
  split; [apply sem_group; exists g; auto|]. cbn. auto.
Qed.

Lemma sem_ipv4_re s q t :
sem ipv4_re 0 s q t <->
exists a b c d,
  s = a ++ "."%char :: b ++ "."%char :: c ++ "."%char :: d ++ t
  /\ digit_group a /\ digit_group b /\ digit_group c /\ digit_group d
  /\ (t = [] \/ t = [newline])
  /\ q = (length a + length b + length c + length d + 3)%nat.
Proof.
unfold ipv4_re.
set (G := Seq (Rep 1 3 digit_re) (Chr ".")). set (D := Rep 1 3 digit_re).
change (sem (Seq Bol (Seq (Rep 3 3 G) (Seq D Eol))) 0 s q t)
  with (exists p1 s1, (0 = 0 /\ p1 = 0 /\ s1 = s)%nat /\
        exists p2 s2, (exists n, (3 <= n <= 3)%nat /\ iter (sem G) n p1 s1 p2 s2) /\
        exists p3 s3, sem D p2 s2 p3 s3 /\
          ((s3 = [] \/ s3 = [newline]) /\ q = p3 /\ t = s3)).
split.
- intros (p1 & s1 & (_ & -> & ->) & p2 & s2 & (n & Hn & Hit) & p3 & s3 & Hd & He & -> & ->).
  assert (n = 3)%nat as -> by lia. cbn [iter] in Hit.
  destruct Hit as (pa & sa & Ha & pb & sb & Hb & pc & sc & Hc & -> & ->).
  apply sem_group_dot in Ha as (a & Ha & -> & ->).
  apply sem_group_dot in Hb as (b & Hb & -> & ->).
  apply sem_group_dot in Hc as (c & Hc & -> & ->).
  apply sem_group in Hd as (d & Hd & -> & ->).
  exists a, b, c, d. repeat split; try assumption; try apply Ha; try apply Hb;
    try apply Hc; try apply Hd. lia.
- intros (a & b & c & d & -> & Ha & Hb & Hc & Hd & He & ->).
  exists 0%nat, (a ++ "."%char :: b ++ "."%char :: c ++ "."%char :: d ++ t).
  split; [auto|].
  exists (S (S (S (length a + length b + length c)))), (d ++ t). split.
  + exists 3%nat. split; [lia|]. cbn [iter].
    exists (S (length a)), (b ++ "."%char :: c ++ "."%char :: d ++ t).
    split; [apply sem_group_dot; exists a; auto|].
    exists (S (S (length a + length b))), (c ++ "."%char :: d ++ t).
    split; [apply sem_group_dot; exists b; split; [exact Hb|]; split; [reflexivity|lia]|].
    exists (S (S (S (length a + length b + length c)))), (d ++ t).
    split; [apply sem_group_dot; exists c; split; [exact Hc|]; split; [reflexivity|lia]|]. auto.
  + exists (length a + length b + length c + length d + 3)%nat, t.
    split; [apply sem_group; exists d; split; [exact Hd|]; split; [reflexivity|lia]|]. auto.
Qed.

(** [validate_ipv4] accepts exactly the values made of four dot-separated
  groups of one to three digits, with possibly one newline at the end. *)
Lemma validate_ipv4_dotted_groups v : validate_ipv4 v = true <-> dotted_groups v.
Proof.
unfold validate_ipv4, dotted_groups. rewrite ReFacts.re_match_spec. split.
- intros (q & t & H). apply sem_ipv4_re in H as (a & b & c & d & H & Ha & Hb & Hc & Hd & Ht & _).
  exists a, b, c, d, t. auto 10.
- intros (a & b & c & d & t & H & Ha & Hb & Hc & Hd & Ht).
  exists (length a + length b + length c + length d + 3)%nat, t.
  apply sem_ipv4_re. exists a, b, c, d. auto 10.
Qed.

End ValidateIpv4.

(** ** The event monad *)

Lemma bind_done {A B : Type} (m : M A) (f : A -> M B) tr b :
  m ≫= f = (tr, Done b) ->
  exists tr1 a tr2, m = (tr1, Done a) /\ f a = (tr2, Done b) /\ tr = tr1 ++ tr2.
Proof.
  destruct m as [tr1 [a| |e]]; unfold mbind, M_bind; [|discriminate..].
  destruct (f a) as [tr2 o] eqn:Hf. intros [= <- ->]. eauto 6.
Qed.

Lemma bind_done_eq {A B : Type} (m : M A) (f : A -> M B) tr1 a :
  m = (tr1, Done a) -> m ≫= f = (tr1 ++ fst (f a), snd (f a)).
Proof. intros ->. unfold mbind, M_bind. destruct (f a). reflexivity. Qed.

Lemma bind_exited {A B : Type} (m : M A) (f : A -> M B) tr :
  m = (tr, Exited) -> m ≫= f = (tr, Exited).
Proof. intros ->. reflexivity. Qed.

Lemma bind_raised {A B : Type} (m : M A) (f : A -> M B) tr e :
  m = (tr, Raised e) -> m ≫= f = (tr, Raised e).
Proof. intros ->. reflexivity. Qed.

Lemma bind_inv {A B : Type} (m : M A) (f : A -> M B) tr o :
  m ≫= f = (tr, o) ->
  (exists tr1 a tr2, m = (tr1, Done a) /\ f a = (tr2, o) /\ tr = tr1 ++ tr2)
  \/ (m = (tr, Exited) /\ o = Exited)
  \/ (exists e, m = (tr, Raised e) /\ o = Raised e).
Proof.
  destruct m as [tr1 [a| |e]]; unfold mbind, M_bind.
  - destruct (f a) as [tr2 o2] eqn:Hf. intros [= <- <-]. left. eauto 6.
  - intros [= <- <-]. right. left. auto.
  - intros [= <- <-]. right. right. eauto.
Qed.

(** The events of a bind are those of its first part, followed by those of
    the second part when the first returns. *)
Lemma bind_events {A B : Type} (m : M A) (f : A -> M B) (P : event -> Prop) :
  Forall P (fst m) -> (forall a, Forall P (fst (f a))) -> Forall P (fst (m ≫= f)).
Proof.
  intros Hm Hf. destruct m as [tr1 [a| |e]]; unfold mbind, M_bind; cbn in *; try assumption.
  specialize (Hf a). destruct (f a) as [tr2 o]. cbn in *. apply Forall_app. auto.
Qed.

(** ** Address files *)

Lemma elem_of_ipv4_from_file lines v :
  v ∈ ipv4_from_file lines <->
  validate_ipv4 v = true /\ exists line, line ∈ lines /\ v = strip line.
Proof.
  induction lines as [|l lines IH]; cbn [ipv4_from_file].
  - split.
    + intros H. inversion H.
    + intros (_ & line & H & _). inversion H.
  - destruct (validate_ipv4 (strip l)) eqn:Hl.
    + rewrite elem_of_cons, IH. split.
      * intros [-> | (Hv & line & Hin & ->)].
        -- split; [exact Hl|]. exists l. split; [left|reflexivity].
        -- split; [exact Hv|]. exists line. split; [right; exact Hin|reflexivity].
      * intros (Hv & line & Hin & ->). apply elem_of_cons in Hin as [-> | Hin].
        -- left. reflexivity.
        -- right. eauto.
    + rewrite IH. split.
      * intros (Hv & line & Hin & ->). split; [exact Hv|].
        exists line. split; [right; exact Hin|reflexivity].
      * intros (Hv & line & Hin & ->). split; [exact Hv|].
        apply elem_of_cons in Hin as [-> | Hin]; [congruence|]. eauto.
Qed.

Lemma ipv4_from_file_valid lines :
  Forall (fun v => validate_ipv4 v = true) (ipv4_from_file lines).
Proof.
  apply Forall_forall. intros v Hv. apply elem_of_ipv4_from_file in Hv. apply Hv.
Qed.

(** ** List population *)

Section Population.

Variable fs : string -> option file.

Lemma supplied_by_nil v : ~ supplied_by fs [] v.
Proof.
  intros (_ & [H | (f & lines & line & H & _)]); inversion H.
Qed.

Lemma supplied_by_cons_valid ival rest v :
  validate_ipv4 ival = true ->
  supplied_by fs (ival :: rest) v <-> v = ival \/ supplied_by fs rest v.
Proof.
  intros Hival. unfold supplied_by. split.
  - intros (Hv & [Hin | (f & lines & line & Hin & Hf & Hrest)]).
    + apply elem_of_cons in Hin as [-> | Hin]; auto.
    + apply elem_of_cons in Hin as [-> | Hin]; [congruence|].
      right. split; [exact Hv|]. right. exists f, lines, line. auto.
  - intros [-> | (Hv & [Hin | (f & lines & line & Hin & Hrest)])].
    + split; [exact Hival|]. left. left.
    + split; [exact Hv|]. left. right. exact Hin.
    + split; [exact Hv|]. right. exists f, lines, line. split; [right; exact Hin|exact Hrest].
Qed.

Lemma supplied_by_cons_file ival lines rest v :
  validate_ipv4 ival = false -> fs ival = Some (Readable lines) ->
  supplied_by fs (ival :: rest) v <-> supplied_by fs (rest ++ ipv4_from_file lines) v.
Proof.
  intros Hival Hfile. unfold supplied_by. split.
  - intros (Hv & [Hin | (f & lines' & line & Hin & Hf & Hfs & Hline & ->)]).
    + apply elem_of_cons in Hin as [-> | Hin]; [congruence|].
      split; [exact Hv|]. left. apply elem_of_app. auto.
    + split; [exact Hv|]. apply elem_of_cons in Hin as [-> | Hin].
      * left. apply elem_of_app. right. apply elem_of_ipv4_from_file.
        split; [exact Hv|]. exists line. split; [congruence|reflexivity].
      * right. exists f, lines', line. rewrite elem_of_app. auto 6.
  - intros (Hv & [Hin | (f & lines' & line & Hin & Hf & Hfs & Hline & ->)]).
    + split; [exact Hv|]. apply elem_of_app in Hin as [Hin | Hin].
      * left. right. exact Hin.
      * right. apply elem_of_ipv4_from_file in Hin as (_ & line & Hline & ->).
        exists ival, lines, line. split; [left|auto].
    + split; [exact Hv|]. right. apply elem_of_app in Hin as [Hin | Hin].
      * exists f, lines', line. split; [right; exact Hin|auto].
      * apply elem_of_ipv4_from_file in Hin as [Hin _]. congruence.
Qed.

Lemma supplied_by_app_addrs rest lines v :
  supplied_by fs (rest ++ ipv4_from_file lines) v <->
  v ∈ ipv4_from_file lines \/ supplied_by fs rest v.
Proof.
  unfold supplied_by. split.
  - intros (Hv & [Hin | (f & lines' & line & Hin & Hf & Hrest)]).
    + apply elem_of_app in Hin as [Hin | Hin]; auto.
    + apply elem_of_app in Hin as [Hin | Hin].
      * right. split; [exact Hv|]. right. exists f, lines', line. auto.
      * apply elem_of_ipv4_from_file in Hin as [Hin _]. congruence.
  - intros [Hin | (Hv & [Hin | (f & lines' & line & Hin & Hrest)])].
    + split; [apply elem_of_ipv4_from_file in Hin; apply Hin|].
      left. apply elem_of_app. auto.
    + split; [exact Hv|]. left. apply elem_of_app. auto.
    + split; [exact Hv|]. right. exists f, lines', line.
      split; [apply elem_of_app; auto|exact Hrest].
Qed.

(** The loop over the general values prints nothing. *)
Lemma global_values_events vals values : fst (global_values fs vals values) = [].
Proof.
  funelim (global_values fs vals values); try assumption; reflexivity.
Qed.

(** When the loop returns, the result holds the values it started with
    and the supplied addresses, and nothing else. *)
Lemma global_values_done vals values : forall tr out,
  global_values fs vals values = (tr, Done out) ->
  forall v, v ∈ out <-> v ∈ values \/ supplied_by fs vals v.
Proof.
  funelim (global_values fs vals values); intros tr out Hrun v.
  - injection Hrun as _ <-. split; [auto|].
    intros [H | H]; [exact H|]. destruct (supplied_by_nil _ H).
  - rewrite (H _ _ Hrun), elem_of_app, list_elem_of_singleton,
      (supplied_by_cons_valid _ _ _ Hvalid). tauto.
  - rewrite (H _ _ Hrun), (supplied_by_cons_file _ _ _ _ Hinvalid Hfile). tauto.
  - discriminate.
  - discriminate.
Qed.

(** One unusable value among the general values, and the loop raises. *)
Lemma global_values_raises vals values :
  Forall (fun v => read_error fs v = None) vals ->
  Exists (unusable fs) vals ->
  global_values fs vals values = ([], Raised (NameError "line")).
Proof.
  funelim (global_values fs vals values); intros Hread Hbad.
  - inversion Hbad.
  - apply H.
    + inversion Hread; assumption.
    + inversion Hbad as [? ? [Hv _]|]; subst; [congruence|assumption].
  - apply H.
    + apply Forall_app. split; [inversion Hread; assumption|].
      apply Forall_forall. intros v Hv. apply elem_of_ipv4_from_file in Hv as [Hv _].
      unfold read_error. rewrite Hv. reflexivity.
    + apply Exists_app. left.
      inversion Hbad as [? ? [_ Hf]|]; subst; [congruence|assumption].
  - exfalso. inversion Hread as [|? ? Hr _]; subst.
    unfold read_error in Hr. rewrite Hinvalid in Hr.
    match goal with Hf : fs ival = Some (Unreadable _) |- _ => rewrite Hf in Hr end.
    discriminate.
  - reflexivity.
Qed.


(** The run of the loop over the values of a sender or target argument:
    up to the first value that cannot be read it prints one warning for
    each unusable value and appends what the other values contribute; it
    returns when there is no value that cannot be read, and raises the
    exception of the first one otherwise. *)
Lemma populate_list_run arg_val : forall lst,
  populate_list fs arg_val lst
  = (map warning (List.filter (unusableb fs) (fst (until_read_error fs arg_val))),
     match snd (until_read_error fs arg_val) with
     | None => Done (lst ++ flat_map (contribution fs) (fst (until_read_error fs arg_val)))
     | Some e => Raised e
     end).
Proof.
  induction arg_val as [|line rest IH]; intros lst;
    cbn [populate_list until_read_error].
  - cbn. rewrite app_nil_r. reflexivity.
  - unfold read_error. destruct (validate_ipv4 line) eqn:Hline.
    + rewrite IH. destruct (until_read_error fs rest) as [pre oe].
      cbn [fst snd List.filter flat_map]. unfold unusableb at 2, contribution at 2.
      rewrite Hline. cbn [negb andb]. destruct oe; [reflexivity|].
      rewrite <- app_assoc. reflexivity.
    + destruct (fs line) as [[lines|e]|] eqn:Hfs.
      * rewrite IH. destruct (until_read_error fs rest) as [pre oe].
        cbn [fst snd List.filter flat_map]. unfold unusableb at 2, contribution at 2.
        rewrite Hline, Hfs. cbn [negb andb]. destruct oe; [reflexivity|].
        rewrite <- app_assoc. reflexivity.
      * reflexivity.
      * rewrite (bind_done_eq _ _ [Print _] tt) by reflexivity. rewrite IH.
        destruct (until_read_error fs rest) as [pre oe].
        cbn [fst snd List.filter flat_map]. unfold unusableb at 2, contribution at 2.
        rewrite Hline, Hfs. cbn [negb andb map app]. reflexivity.
Qed.

Lemma populate_list_done arg_val : forall lst tr out,
  populate_list fs arg_val lst = (tr, Done out) ->
  forall v, v ∈ out <-> v ∈ lst \/ supplied_by fs arg_val v.
Proof.
  induction arg_val as [|line rest IH]; intros lst tr out Hrun v;
    cbn [populate_list] in Hrun.
  - injection Hrun as _ <-. split; [auto|].
    intros [H | H]; [exact H|]. destruct (supplied_by_nil _ H).
  - destruct (validate_ipv4 line) eqn:Hline.
    + rewrite (IH _ _ _ Hrun), elem_of_app, list_elem_of_singleton,
        (supplied_by_cons_valid _ _ _ Hline). tauto.
    + destruct (fs line) as [[lines|e]|] eqn:Hfs.
      * rewrite (IH _ _ _ Hrun), (supplied_by_cons_file _ _ _ _ Hline Hfs),
          supplied_by_app_addrs, elem_of_app. tauto.
      * discriminate.
      * apply bind_done in Hrun as (tr1 & [] & tr2 & _ & Hrun & _).
        rewrite (IH _ _ _ Hrun). unfold supplied_by. split.
        -- intros [H | (Hv & [H | (f & lines & l & H & Hrest)])]; [auto|..].
           ++ right. split; [exact Hv|]. left. right. exact H.
           ++ right. split; [exact Hv|]. right. exists f, lines, l.
              split; [right; exact H|exact Hrest].
        -- intros [H | (Hv & [H | (f & lines & l & H & Hf & Hfs' & Hrest)])]; [auto|..].
           ++ apply elem_of_cons in H as [-> | H]; [congruence|].
              right. split; [exact Hv|]. left. exact H.
           ++ apply elem_of_cons in H as [-> | H]; [congruence|].
              right. split; [exact Hv|]. right. exists f, lines, l. auto.
Qed.

End Population.

Section PopulationPhases.

Variable fs : string -> option file.

Lemma supplied_none v : ~ supplied fs None v.
Proof. intros (l & H & _). discriminate. Qed.

Lemma supplied_empty v : ~ supplied fs (Some []) v.
Proof. intros (l & [= <-] & H). exact (supplied_by_nil fs v H). Qed.

Lemma supplied_some l v : supplied fs (Some l) v <-> supplied_by fs l v.
Proof.
  split.
  - intros (l' & [= <-] & H). exact H.
  - intros H. exists l. auto.
Qed.

Lemma the_list_extend ht lt lt' values lists v :
  v ∈ the_list ht lt'
        (extend_list lt values (fst lists), extend_list lt values (snd lists)) <->
  v ∈ the_list ht lt' lists \/ (lt' = lt /\ v ∈ values).
Proof.
  destruct lists as [[w1 b1] [w2 b2]].
  destruct ht, lt, lt'; cbn; rewrite ?elem_of_app; split; intros H;
    repeat match goal with
    | H : _ \/ _ |- _ => destruct H as [H | H]
    | H : _ /\ _ |- _ => destruct H as [? H]
    end; auto; discriminate.
Qed.

(** One general argument: its supplied addresses go to both objects. *)
Lemma populate_global_list_done args lt lists tr lists' :
  populate_global_list fs args lt lists = (tr, Done lists') ->
  tr = [] /\
  forall ht lt' v,
    v ∈ the_list ht lt' lists' <->
    v ∈ the_list ht lt' lists \/ (lt' = lt /\ supplied fs (global_arg args lt) v).
Proof.
  unfold populate_global_list. destruct (global_arg args lt) as [[|ival vals]|] eqn:Harg.
  - intros [= <- <-]. split; [reflexivity|]. intros ht lt' v. split; [auto|].
    intros [H | [_ H]]; [exact H|]. destruct (supplied_empty _ H).
  - intros Hrun. apply bind_done in Hrun as (tr1 & values & tr2 & Hvals & Hret & ->).
    injection Hret as <- <-.
    pose proof (global_values_events fs (ival :: vals) []) as Hev.
    rewrite Hvals in Hev. cbn in Hev. subst tr1. split; [reflexivity|].
    intros ht lt' v. rewrite the_list_extend, supplied_some,
      (global_values_done fs _ _ _ _ Hvals v).
    split; (intros [H | [-> H]]; [auto|right; split; [reflexivity|]]).
    + destruct H as [H | H]; [inversion H|exact H].
    + right. exact H.
  - intros [= <- <-]. split; [reflexivity|]. intros ht lt' v. split; [auto|].
    intros [H | [_ H]]; [exact H|]. destruct (supplied_none _ H).
Qed.

Lemma populate_global_done args lists tr lists' :
  populate_global fs args lists = (tr, Done lists') ->
  tr = [] /\
  forall ht lt v,
    v ∈ the_list ht lt lists' <->
    v ∈ the_list ht lt lists \/ supplied fs (global_arg args lt) v.
Proof.
  unfold populate_global. intros Hrun.
  apply bind_done in Hrun as (tr1 & lists1 & tr2 & Hw & Hb & ->).
  apply populate_global_list_done in Hw as [-> Hw].
  apply populate_global_list_done in Hb as [-> Hb].
  split; [reflexivity|]. intros ht lt v. rewrite Hb, Hw.
  destruct lt; split; intros H; try tauto.
  - destruct H as [[H | [_ H]] | [H _]]; auto; discriminate.
  - destruct H as [[H | [H _]] | [_ H]]; auto; discriminate.
Qed.

(** One sender or target argument: its supplied addresses go to its own
    list, and the other lists are left as they are. *)
Lemma populate_argument_done lists ht lt arg_val tr lists' :
  populate_argument fs lists (ht, lt, arg_val) = (tr, Done lists') ->
  forall ht' lt' v,
    v ∈ the_list ht' lt' lists' <->
    v ∈ the_list ht' lt' lists \/ (ht' = ht /\ lt' = lt /\ supplied fs arg_val v).
Proof.
  unfold populate_argument. destruct arg_val as [[|line rest]|].
  - intros [= <- <-] ht' lt' v. split; [auto|].
    intros [H | (_ & _ & H)]; [exact H|]. destruct (supplied_empty _ H).
  - destruct lists as [[w1 b1] [w2 b2]]. destruct ht; intros Hrun;
      apply bind_done in Hrun as (tr1 & lst & tr2 & Hlst & Hret & ->);
      injection Hret as <- <-; intros ht' lt' v; rewrite supplied_some;
      pose proof (populate_list_done fs _ _ _ _ Hlst v) as Hv;
      destruct lt, ht', lt'; cbn in *; rewrite ?Hv;
      split; intros H; try tauto;
      destruct H as [H | (? & ? & H)]; auto; discriminate.
  - intros [= <- <-] ht' lt' v. split; [auto|].
    intros [H | (_ & _ & H)]; [exact H|]. destruct (supplied_none _ H).
Qed.

(** What the four lists hold when the population is over: the addresses
    supplied by the general argument of their kind and by their own
    argument, and nothing else. *)
Lemma populate_done args tr lists :
  populate fs args = (tr, Done lists) ->
  forall ht lt v,
    v ∈ the_list ht lt lists <->
    supplied fs (global_arg args lt) v \/ supplied fs (list_arg args ht lt) v.
Proof.
  unfold populate, list_arguments. intros Hrun.
  apply bind_done in Hrun as (tr0 & l0 & tr0' & Hg & Hrun & ->).
  apply populate_global_done in Hg as [-> Hg].
  cbn [populate_arguments] in Hrun.
  apply bind_done in Hrun as (tr1 & l1 & tr1' & H1 & Hrun & ->).
  apply bind_done in Hrun as (tr2 & l2 & tr2' & H2 & Hrun & ->).
  apply bind_done in Hrun as (tr3 & l3 & tr3' & H3 & Hrun & ->).
  apply bind_done in Hrun as (tr4 & l4 & tr4' & H4 & Hrun & ->).
  injection Hrun as <- <-.
  intros ht lt v.
  rewrite (populate_argument_done _ _ _ _ _ _ H4), (populate_argument_done _ _ _ _ _ _ H3),
    (populate_argument_done _ _ _ _ _ _ H2), (populate_argument_done _ _ _ _ _ _ H1), Hg.
  assert (Hnil : ~ v ∈ the_list ht lt (new_Lists, new_Lists)).
  { destruct ht, lt; cbn; apply not_elem_of_nil. }
  destruct ht, lt; cbn [list_arg]; split; intros H; try tauto;
    repeat match goal with
    | H : _ \/ _ |- _ => destruct H as [H | H]
    | H : _ /\ _ |- _ => destruct H as [? H]
    end; auto; try discriminate; contradiction.
Qed.

End PopulationPhases.

(** ** Conflict resolution *)

Lemma index_None val l : index val l = None <-> val ∉ l.
Proof.
  induction l as [|x l IH]; cbn [index].
  - split; [intros _; apply not_elem_of_nil|reflexivity].
  - rewrite not_elem_of_cons. destruct (String.eqb_spec x val) as [-> | Hne].
    + split; [discriminate|]. intros [H _]. congruence.
    + destruct (index val l); cbn.
      * split; [discriminate|]. intros [_ H]. apply IH in H. discriminate.
      * split; [|reflexivity]. intros _. split; [congruence|]. apply IH. reflexivity.
Qed.

Lemma take_delete_same (l : list string) i : take i (delete i l) = take i l.
Proof.
  revert i. induction l as [|y l IH]; intros [|i]; cbn; try reflexivity.
  f_equal. apply IH.
Qed.

(** When the loop ends, no value it leaves in the white list is in the
    black list, provided this held for the values before [counter]. *)
Lemma conflict_loop_disjoint white black counter : forall w b,
  conflict_loop white black counter = (w, b) ->
  (forall x, x ∈ take counter white -> x ∉ black) ->
  forall x, x ∈ w -> x ∉ b.
Proof.
  funelim (conflict_loop white black counter); intros w b Hrun Hinv.
  - injection Hrun as <- <-. intros x Hx. apply Hinv.
    rewrite take_ge; [exact Hx|]. apply lookup_ge_None. assumption.
  - apply (H _ _ Hrun). intros x Hx Hb. apply (Hinv x).
    + rewrite take_delete_same in Hx. exact Hx.
    + eapply list_elem_of_delete_inv. exact Hb.
  - apply (H _ _ Hrun). intros x Hx.
    rewrite (take_S_r _ _ _ Hval) in Hx. apply elem_of_app in Hx as [Hx | Hx].
    + apply Hinv. exact Hx.
    + apply list_elem_of_singleton in Hx as ->. apply index_None. assumption.
Qed.

(** The loop only deletes. *)
Lemma conflict_loop_subset white black counter : forall w b,
  conflict_loop white black counter = (w, b) ->
  (forall x, x ∈ w -> x ∈ white) /\ (forall x, x ∈ b -> x ∈ black).
Proof.
  funelim (conflict_loop white black counter); intros w b Hrun.
  - injection Hrun as <- <-. auto.
  - destruct (H _ _ Hrun) as [Hw Hb]. split; intros x Hx.
    + eapply list_elem_of_delete_inv. apply Hw. exact Hx.
    + eapply list_elem_of_delete_inv. apply Hb. exact Hx.
  - apply (H _ _ Hrun).
Qed.

Lemma elem_of_list_set l x : x ∈ list_set l <-> x ∈ l.
Proof. unfold list_set. rewrite elem_of_elements, elem_of_list_to_set. reflexivity. Qed.

Lemma NoDup_list_set l : NoDup (list_set l).
Proof. unfold list_set. apply NoDup_elements. Qed.

(** After the conflict resolution of one object, its two lists have no
    value in common and neither holds a value twice. *)
Lemma resolve_conflicts_invariant var :
  (forall x, x ∈ white (resolve_conflicts var) -> x ∉ black (resolve_conflicts var))
  /\ NoDup (white (resolve_conflicts var))
  /\ NoDup (black (resolve_conflicts var)).
Proof.
  unfold resolve_conflicts, resolve_conflicts_with.
  destruct (conflict_loop (white var) (black var) 0) as [w b] eqn:Hloop. cbn.
  split; [|split; apply NoDup_list_set].
  intros x. rewrite !elem_of_list_set.
  apply (conflict_loop_disjoint _ _ _ _ _ Hloop).
  intros y Hy. cbn in Hy. inversion Hy.
Qed.

(** The resolution adds no value. *)
Lemma resolve_conflicts_subset var :
  (forall x, x ∈ white (resolve_conflicts var) -> x ∈ white var)
  /\ (forall x, x ∈ black (resolve_conflicts var) -> x ∈ black var).
Proof.
  unfold resolve_conflicts, resolve_conflicts_with.
  destruct (conflict_loop (white var) (black var) 0) as [w b] eqn:Hloop. cbn.
  destruct (conflict_loop_subset _ _ _ _ _ Hloop) as [Hw Hb].
  split; intros x; rewrite elem_of_list_set; auto.
Qed.

(** ** The lists after population and conflict resolution *)

(** C1 — When the population of the lists and the conflict resolution
    complete, the white list and the black list of [sender_lists] have no
    value in common and neither holds a value twice, and the same holds for
    [target_lists], whatever the allow and deny arguments and the address
    files were. *)
Theorem lists_disjoint_without_duplicates fs args tr sender_lists target_lists :
  build_lists fs args = (tr, Done (sender_lists, target_lists)) ->
  ((forall x, x ∈ white sender_lists -> x ∉ black sender_lists)
   /\ NoDup (white sender_lists) /\ NoDup (black sender_lists))
  /\ ((forall x, x ∈ white target_lists -> x ∉ black target_lists)
      /\ NoDup (white target_lists) /\ NoDup (black target_lists)).
Proof.
  unfold build_lists. intros Hrun.
  apply bind_done in Hrun as (tr1 & lists & tr2 & _ & Hret & _).
  injection Hret as _ <- <-.
  split; apply resolve_conflicts_invariant.
Qed.

Lemma lists_disjoint_without_duplicates_witness :
  ((forall x, x ∈ ["10.0.0.7"; "10.0.0.1"; "10.0.0.8"] -> x ∉ @nil string)
   /\ NoDup ["10.0.0.7"; "10.0.0.1"; "10.0.0.8"] /\ NoDup (@nil string))
  /\ ((forall x, x ∈ ["10.0.0.1"; "10.0.0.8"] -> x ∉ ["10.0.0.9"])
      /\ NoDup ["10.0.0.1"; "10.0.0.8"] /\ NoDup ["10.0.0.9"]).
Proof.
  apply (lists_disjoint_without_duplicates Examples.fs Examples.args
           [warning "nothing-here"]
           (mkLists ["10.0.0.7"; "10.0.0.1"; "10.0.0.8"] [])
           (mkLists ["10.0.0.1"; "10.0.0.8"] ["10.0.0.9"])).
  vm_compute. reflexivity.
Defined.

(** C9 — Every valid address supplied to the general white list argument,
    as a value or through an address file, is in the white list of both
    [sender_lists] and [target_lists] when the population is over and the
    conflict resolution is about to run; likewise for the general black
    list argument and the two black lists. *)
Theorem general_lists_reach_both_objects fs args tr lists :
  populate fs args = (tr, Done lists) ->
  forall lt v,
    supplied fs (global_arg args lt) v ->
    v ∈ get_list lt (fst lists) /\ v ∈ get_list lt (snd lists).
Proof.
  intros Hrun lt v Hv. split.
  - apply (populate_done fs args tr lists Hrun Sender lt v). left. exact Hv.
  - apply (populate_done fs args tr lists Hrun Target lt v). left. exact Hv.
Qed.

Lemma general_lists_reach_both_objects_witness :
  "10.0.0.8" ∈ ["10.0.0.1"; "10.0.0.7"; "10.0.0.8"; "10.0.0.1"; "10.0.0.5"]
  /\ "10.0.0.8" ∈ ["10.0.0.1"; "10.0.0.7"; "10.0.0.8"].
Proof.
  apply (general_lists_reach_both_objects Examples.fs Examples.args
           [warning "nothing-here"]
           (mkLists ["10.0.0.1"; "10.0.0.7"; "10.0.0.8"; "10.0.0.1"; "10.0.0.5"]
                    ["10.0.0.5"],
            mkLists ["10.0.0.1"; "10.0.0.7"; "10.0.0.8"]
                    ["10.0.0.7"; "10.0.0.9"; "10.0.0.9"])
           ltac:(vm_compute; reflexivity) White "10.0.0.8").
  exists ["10.0.0.1"; "hosts.txt"]. split; [reflexivity|].
  split; [vm_compute; reflexivity|]. right.
  exists "hosts.txt", [ ("10.0.0.7" ++ String Re.newline "")%string;
                        ("not an address" ++ String Re.newline "")%string;
                        " 10.0.0.8 " ], " 10.0.0.8 ".
  split; [apply list_elem_of_In; simpl; auto|].
  split; [vm_compute; reflexivity|].
  split; [vm_compute; reflexivity|].
  split; [apply list_elem_of_In; simpl; auto|].
  vm_compute. reflexivity.
Defined.

(** C6 — [validate_ipv4] does not accept exactly the strict dotted quads:
    the pattern does not bound the octets by 255, and [999.999.999.999] is
    accepted. *)
Lemma validate_ipv4_not_strict :
  ~ (forall v, validate_ipv4 v = true <-> strict_dotted_quad v = true).
Proof.
  intros H. destruct (H "999.999.999.999") as [Hacc _].
  specialize (Hacc eq_refl). vm_compute in Hacc. discriminate.
Qed.

(** C6 (amended) — [validate_ipv4] accepts a value if and only if it is made
    of four groups of one to three decimal digits separated by dots,
    possibly followed by one newline; the groups are not bounded by 255.
    Every value that the population puts into one of the four lists, taken
    from an allow or deny argument or from an address file, has this
    form. *)
Theorem validate_ipv4_accepts_digit_groups :
  (forall v, validate_ipv4 v = true <-> dotted_groups v)
  /\ (forall fs args tr lists ht lt v,
        populate fs args = (tr, Done lists) ->
        v ∈ the_list ht lt lists -> dotted_groups v).
Proof.
  split; [exact validate_ipv4_dotted_groups|].
  intros fs args tr lists ht lt v Hrun Hv.
  apply validate_ipv4_dotted_groups.
  apply (populate_done fs args tr lists Hrun) in Hv.
  destruct Hv as [(l & _ & Hv & _) | (l & _ & Hv & _)]; exact Hv.
Qed.

Lemma validate_ipv4_accepts_digit_groups_witness : dotted_groups "10.0.0.8".
Proof.
  apply (proj2 validate_ipv4_accepts_digit_groups Examples.fs Examples.args
           [warning "nothing-here"]
           (mkLists ["10.0.0.1"; "10.0.0.7"; "10.0.0.8"; "10.0.0.1"; "10.0.0.5"]
                    ["10.0.0.5"],
            mkLists ["10.0.0.1"; "10.0.0.7"; "10.0.0.8"]
                    ["10.0.0.7"; "10.0.0.9"; "10.0.0.9"])
           Target White "10.0.0.8").
  - vm_compute. reflexivity.
  - apply list_elem_of_In. simpl. auto.
Defined.

(** ** The run of the program *)

Lemma mem_spec k l : mem k l = true <-> k ∈ l.
Proof.
  unfold mem. rewrite existsb_exists. split.
  - intros (x & Hin & Hx). apply String.eqb_eq in Hx as ->.
    apply list_elem_of_In. exact Hin.
  - intros Hin. exists k. split; [apply list_elem_of_In; exact Hin|apply String.eqb_refl].
Qed.

Lemma quiet_bind {A B : Type} (m : M A) (f : A -> M B) :
  quiet m -> (forall a, quiet (f a)) -> quiet (m ≫= f).
Proof. apply bind_events. Qed.

Lemma quiet_ret {A : Type} (a : A) : quiet (mret a : M A).
Proof. constructor. Qed.

Section ProgramRun.

Variable fs : string -> option file.
Variable Session : Type.
Variable Order : Type.
Variable desc : Order.
Variable get_transactions : Session -> Order -> list Transaction.
Variable build_stale : Transaction -> option ColorProfile -> string.
Variable bfh : Transaction -> string -> bool -> string.
Variable check : Lists -> string -> bool.
Variable tabulate : list row -> list string -> string.
Variable analyzed_db : Args -> Lists -> Lists -> Session.

Lemma quiet_check_columns args : quiet (check_columns args).
Proof.
  unfold check_columns. destruct (output_columns args) as [[|col cols]|].
  - repeat constructor.
  - destruct (List.filter _ _); repeat constructor.
  - apply quiet_ret.
Qed.

Lemma quiet_populate_list arg_val lst : quiet (populate_list fs arg_val lst).
Proof.
  rewrite populate_list_run. unfold quiet. cbn [fst].
  apply Forall_forall. intros e He.
  apply list_elem_of_fmap in He as (v & -> & _). reflexivity.
Qed.

Lemma quiet_populate_global_list args lt lists :
  quiet (populate_global_list fs args lt lists).
Proof.
  unfold populate_global_list. destruct (global_arg args lt) as [[|ival vals]|].
  - apply quiet_ret.
  - apply quiet_bind.
    + unfold quiet. rewrite global_values_events. constructor.
    + intros values. apply quiet_ret.
  - apply quiet_ret.
Qed.

Lemma quiet_populate_argument lists arg : quiet (populate_argument fs lists arg).
Proof.
  destruct arg as [[ht lt] [[|line rest]|]]; cbn [populate_argument].
  - apply quiet_ret.
  - destruct ht; (apply quiet_bind; [apply quiet_populate_list|intros; apply quiet_ret]).
  - apply quiet_ret.
Qed.

Lemma quiet_populate_arguments arguments : forall lists,
  quiet (populate_arguments fs arguments lists).
Proof.
  induction arguments as [|arg arguments IH]; intros lists; cbn [populate_arguments].
  - apply quiet_ret.
  - apply quiet_bind; [apply quiet_populate_argument|exact IH].
Qed.

Lemma quiet_build_lists args : quiet (build_lists fs args).
Proof.
  unfold build_lists, populate, populate_global.
  apply quiet_bind; [|intros; apply quiet_ret].
  apply quiet_bind; [|intros; apply quiet_populate_arguments].
  apply quiet_bind; [apply quiet_populate_global_list|].
  intros. apply quiet_populate_global_list.
Qed.









(** An unusable value in the general white list argument ends the run
    with [NameError], once the column check has passed, when no value of
    the argument names a path that cannot be read. *)
Lemma general_white_list_unusable_raises args c vals :
  cmd args = Some c ->
  check_columns args = ([], Done tt) ->
  whitelist args = Some vals ->
  Forall (fun v => read_error fs v = None) vals ->
  Exists (unusable fs) vals ->
  main fs Session Order desc get_transactions build_stale bfh check tabulate
    analyzed_db args
  = ([], Raised (NameError "line")).
Proof.
  intros Hcmd Hcols Hwl Hread Hbad. unfold main. rewrite Hcmd.
  rewrite (bind_done_eq _ _ _ _ Hcols). cbn [app].
  assert (Hlists : build_lists fs args = ([], Raised (NameError "line"))).
  { unfold build_lists, populate, populate_global.
    do 3 (apply bind_raised). unfold populate_global_list. cbn [global_arg].
    rewrite Hwl. destruct vals as [|ival vals]; [inversion Hbad|].
    apply bind_raised. apply global_values_raises; assumption. }
  rewrite (bind_raised _ _ _ _ Hlists). reflexivity.
Qed.

(** C4 — When the parsed arguments carry an [output_columns] value that is
    empty or that holds a name outside the keys of [COL_MAP], the whole run
    consists of diagnostics that are printed, followed by the exit: no list
    is populated, nothing is ingested and nothing is rendered. *)
Theorem invalid_columns_end_the_run args c columns :
  cmd args = Some c ->
  output_columns args = Some columns ->
  columns = [] \/ (exists v, v ∈ columns /\ v ∉ dict_keys COL_MAP) ->
  exists diagnostics,
    diagnostics <> [] /\
    main fs Session Order desc get_transactions build_stale bfh check tabulate
      analyzed_db args
    = (map Print diagnostics, Exited).
Proof.
  intros Hcmd Hcols Hbad. unfold main. rewrite Hcmd.
  assert (Hcheck : exists diagnostics,
            diagnostics <> [] /\ check_columns args = (map Print diagnostics, Exited)).
  { unfold check_columns. rewrite Hcols. destruct columns as [|col cols].
    - exists ["- Output columns are required"; "Exiting!"]. split; [discriminate|reflexivity].
    - destruct Hbad as [Hbad | (v & Hin & Hv)]; [discriminate|].
      destruct (List.filter (fun v => negb (mem v (dict_keys COL_MAP))) (col :: cols))
        as [|b bad] eqn:Hfilter.
      + exfalso. assert (Hv' : In v []); [|destruct Hv'].
        rewrite <- Hfilter. apply filter_In. split; [apply list_elem_of_In; exact Hin|].
        apply negb_true_iff. destruct (mem v (dict_keys COL_MAP)) eqn:Hmem; [|reflexivity].
        apply mem_spec in Hmem. contradiction.
      + eexists [_; _; _]. split; [discriminate|reflexivity]. }
  destruct Hcheck as (diagnostics & Hne & Hcheck). exists diagnostics.
  split; [exact Hne|]. apply bind_exited. exact Hcheck.
Qed.


End ProgramRun.

Lemma invalid_columns_end_the_run_witness :
  exists diagnostics,
    diagnostics <> [] /\
    main Examples.fs Examples.Session unit tt Examples.get_transactions
      Examples.build_stale Examples.bfh Lists_check Examples.tabulate
      Examples.analyzed_db Examples.args_bad_column
    = (map Print diagnostics, Exited).
Proof.
  apply (invalid_columns_end_the_run Examples.fs Examples.Session unit tt
           Examples.get_transactions Examples.build_stale Examples.bfh Lists_check
           Examples.tabulate Examples.analyzed_db Examples.args_bad_column
           Analyze ["sender"; "colour"]).
  - reflexivity.
  - reflexivity.
  - right. exists "colour". split.
    + apply list_elem_of_In. simpl. auto.
    + intros Hin. apply mem_spec in Hin. vm_compute in Hin. discriminate.
Defined.



(** C2 — A value of the general white list argument that is neither an
    address nor an existing file is not skipped with a warning.  For
    [capture -wl bogus], where no file is named [bogus], the run prints
    nothing and does not continue: it ends with [NameError] for the name
    [line]. *)
Theorem general_white_list_bogus_value_raises :
  main Examples.fs Examples.Session unit tt Examples.get_transactions
    Examples.build_stale Examples.bfh Lists_check Examples.tabulate
    Examples.analyzed_db Examples.args_bogus
  = ([], Raised (NameError "line")).
Proof.
  apply (general_white_list_unusable_raises Examples.fs Examples.Session unit tt
           Examples.get_transactions Examples.build_stale Examples.bfh Lists_check
           Examples.tabulate Examples.analyzed_db Examples.args_bogus
           Capture ["bogus"]); try reflexivity.
  - constructor; [reflexivity|constructor].
  - constructor. split; reflexivity.
Qed.

(** On the sender and target arguments the same value is skipped with a
    warning and the population goes on. *)
Lemma specific_list_bogus_value_skipped :
  populate_list Examples.fs ["bogus"; "10.0.0.1"] []
  = ([Print "Invalid ipv4 address and unknown file, skipping: bogus"],
     Done ["10.0.0.1"]).
Proof. reflexivity. Qed.

(** ** Grouping by sender *)

Lemma mem_filter (p : string -> bool) s l :
  mem s (List.filter p l) = p s && mem s l.
Proof.
  unfold mem. induction l as [|x l IH]; cbn [List.filter existsb].
  - rewrite andb_false_r. reflexivity.
  - destruct (String.eqb_spec s x) as [<- | Hne].
    + destruct (p s) eqn:Hp; cbn [existsb orb andb].
      * rewrite String.eqb_refl. reflexivity.
      * exact IH.
    + destruct (p x); cbn [existsb orb].
      * rewrite (proj2 (String.eqb_neq s x) Hne). exact IH.
      * rewrite IH. reflexivity.
Qed.

Lemma senders_in_order_snoc txs t :
  senders_in_order (txs ++ [t]) =
  if mem (value (sender t)) (senders_in_order txs)
  then senders_in_order txs
  else senders_in_order txs ++ [value (sender t)].
Proof.
  induction txs as [|t0 txs IH]; [reflexivity|].
  cbn [app senders_in_order]. rewrite IH.
  set (s := value (sender t)). set (s0 := value (sender t0)).
  change (mem s (s0 :: ?l)) with (String.eqb s s0 || mem s l).
  rewrite mem_filter.
  destruct (mem s (senders_in_order txs)) eqn:Hmem.
  - rewrite andb_true_r. destruct (String.eqb s s0); reflexivity.
  - rewrite andb_false_r, orb_false_r, List.filter_app. cbn [List.filter].
    destruct (String.eqb s s0); cbn [negb]; [rewrite app_nil_r|]; reflexivity.
Qed.

Lemma mem_senders_in_order s txs :
  mem s (senders_in_order txs)
  = existsb (fun t => String.eqb (value (sender t)) s) txs.
Proof.
  induction txs as [|t txs IH]; [reflexivity|].
  cbn [senders_in_order existsb].
  change (mem s (?x :: ?l)) with (String.eqb s x || mem s l).
  rewrite mem_filter, IH, (String.eqb_sym s).
  destruct (String.eqb (value (sender t)) s); reflexivity.
Qed.

Lemma NoDup_senders_in_order txs : NoDup (senders_in_order txs).
Proof.
  induction txs as [|t txs IH]; cbn [senders_in_order]; constructor.
  - intros Hin. apply list_elem_of_In, filter_In in Hin as [_ Hne].
    rewrite String.eqb_refl in Hne. discriminate.
  - apply NoDup_ListNoDup, List.NoDup_filter, NoDup_ListNoDup. exact IH.
Qed.

Lemma transactions_of_snoc s txs t :
  transactions_of s (txs ++ [t]) =
  transactions_of s txs ++ (if String.eqb (value (sender t)) s then [t] else []).
Proof. unfold transactions_of. rewrite List.filter_app. reflexivity. Qed.

Lemma transactions_of_nil s txs :
  mem s (senders_in_order txs) = false -> transactions_of s txs = [].
Proof.
  rewrite mem_senders_in_order. unfold transactions_of.
  induction txs as [|t txs IH]; cbn [existsb List.filter]; [reflexivity|].
  destruct (String.eqb (value (sender t)) s); [discriminate|exact IH].
Qed.

Lemma transactions_of_cons s txs :
  mem s (senders_in_order txs) = true ->
  exists t ts, transactions_of s txs = t :: ts.
Proof.
  rewrite mem_senders_in_order. unfold transactions_of.
  induction txs as [|t txs IH]; cbn [existsb List.filter]; [discriminate|].
  destruct (String.eqb (value (sender t)) s); [eauto|exact IH].
Qed.

Lemma rd_mem_map (g : string -> list row) s l :
  rd_mem s (map (fun k => (k, g k)) l) = mem s l.
Proof.
  induction l as [|k l IH]; [reflexivity|].
  cbn [map rd_mem]. rewrite IH. reflexivity.
Qed.

Lemma rd_append_map (g : string -> list row) s r l :
  NoDup l ->
  rd_append s r (map (fun k => (k, g k)) l)
  = map (fun k => (k, if String.eqb s k then g k ++ [r] else g k)) l.
Proof.
  induction l as [|k l IH]; intros Hnd; [reflexivity|].
  inversion Hnd as [|? ? Hk Hl]; subst. cbn [map rd_append].
  destruct (String.eqb_spec s k) as [-> | Hne].
  - f_equal. apply map_ext_in. intros k' Hin.
    destruct (String.eqb_spec k k') as [<- | _]; [|reflexivity].
    destruct Hk. apply list_elem_of_In. exact Hin.
  - f_equal. apply IH. exact Hl.
Qed.

Section OutputFacts.

Variable Session : Type.
Variable Order : Type.
Variable get_transactions : Session -> Order -> list Transaction.
Variable build_stale : Transaction -> option ColorProfile -> string.
Variable bfh : Transaction -> string -> bool -> string.
Variable check : Lists -> string -> bool.
Variable tabulate : list row -> list string -> string.

Variable sender_lists target_lists : option Lists.
Variable color_profile : option ColorProfile.
Variable columns : list string.

Lemma group_rows_snoc t ts t' :
  group_rows build_stale bfh color_profile columns ((t :: ts) ++ [t'])
  = group_rows build_stale bfh color_profile columns (t :: ts)
    ++ [build_row build_stale bfh color_profile columns t' false].
Proof. cbn [app group_rows]. rewrite map_app. reflexivity. Qed.

(** A further transaction of a sender not seen so far opens a group. *)
Lemma grouped_snoc_new txs t :
  mem (value (sender t)) (senders_in_order txs) = false ->
  grouped build_stale bfh color_profile columns (txs ++ [t])
  = grouped build_stale bfh color_profile columns txs
    ++ [(value (sender t),
         [build_row build_stale bfh color_profile columns t true])].
Proof.
  intros Hnew. unfold grouped. rewrite senders_in_order_snoc, Hnew, map_app.
  cbn [map]. f_equal.
  - apply map_ext_in. intros k Hk. rewrite transactions_of_snoc.
    destruct (String.eqb_spec (value (sender t)) k) as [Heq | _];
      [|rewrite app_nil_r; reflexivity].
    exfalso. subst k. apply list_elem_of_In, mem_spec in Hk. congruence.
  - rewrite transactions_of_snoc, (transactions_of_nil _ _ Hnew), String.eqb_refl.
    reflexivity.
Qed.

(** A further transaction of a known sender goes to the end of that
    sender's group. *)
Lemma grouped_snoc_known txs t :
  mem (value (sender t)) (senders_in_order txs) = true ->
  grouped build_stale bfh color_profile columns (txs ++ [t])
  = rd_append (value (sender t))
      (build_row build_stale bfh color_profile columns t false)
      (grouped build_stale bfh color_profile columns txs).
Proof.
  intros Hknown. unfold grouped.
  rewrite senders_in_order_snoc, Hknown.
  rewrite (rd_append_map
             (fun k => group_rows build_stale bfh color_profile columns
                         (transactions_of k txs)))
    by apply NoDup_senders_in_order.
  apply map_ext_in. intros k Hk. rewrite transactions_of_snoc.
  destruct (String.eqb_spec (value (sender t)) k) as [<- | _];
    [|rewrite app_nil_r; reflexivity].
  destruct (transactions_of_cons _ _ Hknown) as (t0 & ts & ->).
  rewrite group_rows_snoc. reflexivity.
Qed.

Lemma rd_mem_grouped s txs :
  rd_mem s (grouped build_stale bfh color_profile columns txs)
  = mem s (senders_in_order txs).
Proof. unfold grouped. apply rd_mem_map. Qed.

Lemma organize_step_grouped txs t :
  organize_step build_stale bfh check sender_lists target_lists color_profile columns
    (grouped build_stale bfh color_profile columns txs) t
  = grouped build_stale bfh color_profile columns
      (txs ++ List.filter (accepted check sender_lists target_lists) [t]).
Proof.
  unfold organize_step, accepted. cbn [List.filter].
  destruct (rejected check sender_lists (value (sender t))); cbn [negb andb];
    [rewrite app_nil_r; reflexivity|].
  destruct (rejected check target_lists (value (target t))); cbn [negb andb];
    [rewrite app_nil_r; reflexivity|].
  rewrite !rd_mem_grouped.
  destruct (mem (value (sender t)) (senders_in_order txs)) eqn:Hmem; cbn [negb].
  - symmetry. apply grouped_snoc_known. exact Hmem.
  - symmetry. apply grouped_snoc_new. exact Hmem.
Qed.

(** The loop over the transactions groups the accepted ones by sender. *)
Lemma organize_grouped transactions :
  organize build_stale bfh check sender_lists target_lists color_profile columns
    transactions
  = grouped build_stale bfh color_profile columns
      (List.filter (accepted check sender_lists target_lists) transactions).
Proof.
  unfold organize.
  change (@nil (string * list row))
    with (grouped build_stale bfh color_profile columns []).
  change (List.filter (accepted check sender_lists target_lists) transactions)
    with ([] ++ List.filter (accepted check sender_lists target_lists) transactions).
  generalize (@nil Transaction) as done.
  induction transactions as [|t transactions IH]; intros done; cbn [fold_left].
  - rewrite app_nil_r. reflexivity.
  - rewrite organize_step_grouped, IH, <- app_assoc, <- List.filter_app. reflexivity.
Qed.

Lemma odd_mod_2 n : negb (n mod 2 =? 0)%nat = Nat.odd n.
Proof.
  pose proof (Nat.mod_upper_bound n 2 ltac:(lia)) as Hlt.
  rewrite (Nat.div_mod_eq n 2) at 2. rewrite Nat.add_comm, Nat.odd_add_mul_2.
  destruct (n mod 2) as [|[|m]]; [reflexivity..|lia].
Qed.

Lemma restructure_step_styled rd : forall rows counter,
  fold_left (restructure_step color_profile) rd (rows, counter)
  = (rows ++ concat (imap (fun i g => styled_group color_profile (S (counter + i)) g)
                       (map snd rd)),
     (counter + length rd)%nat).
Proof.
  induction rd as [|[s irows] rd IH]; intros rows counter; cbn [fold_left map imap concat length].
  - rewrite app_nil_r, Nat.add_0_r. reflexivity.
  - assert (Hstep : restructure_step color_profile (rows, counter) (s, irows)
                    = (rows ++ styled_group color_profile (S counter) irows, S counter)).
    { unfold restructure_step, styled_group. cbn [snd].
      destruct color_profile as [cp|]; [|reflexivity].
      rewrite odd_mod_2. destruct (Nat.odd (S counter)); reflexivity. }
    rewrite Hstep, IH, <- app_assoc, Nat.add_0_r. f_equal; [|lia].
    f_equal. f_equal. f_equal. apply imap_ext. intros i g _. cbn. f_equal. lia.
Qed.

(** The table lists the groups one after the other, each styled by the
    parity of its position. *)
Lemma restructure_styled rd :
  restructure color_profile rd = styled_groups color_profile (map snd rd).
Proof.
  unfold restructure, styled_groups. rewrite restructure_step_styled. reflexivity.
Qed.

End OutputFacts.

(** ** Row counts *)

Lemma total_rows_app rd1 rd2 : total_rows (rd1 ++ rd2) = (total_rows rd1 + total_rows rd2)%nat.
Proof.
  induction rd1 as [|[k irows] rd1 IH]; cbn [app total_rows]; [reflexivity|].
  rewrite IH. lia.
Qed.

Lemma total_rows_rd_append k r rd :
  rd_mem k rd = true -> total_rows (rd_append k r rd) = S (total_rows rd).
Proof.
  induction rd as [|[k' irows] rd IH]; cbn [rd_mem rd_append total_rows]; [discriminate|].
  destruct (String.eqb k k'); cbn [orb total_rows].
  - intros _. rewrite length_app. cbn. lia.
  - intros Hmem. rewrite (IH Hmem). lia.
Qed.

Lemma restructure_length color_profile rd :
  length (restructure color_profile rd) = total_rows rd.
Proof.
  unfold restructure.
  assert (H : forall rows counter,
            length (fst (fold_left (restructure_step color_profile) rd (rows, counter)))
            = (length rows + total_rows rd)%nat); [|apply (H [] 0%nat)].
  induction rd as [|[k irows] rd IH]; intros rows counter; cbn [fold_left total_rows].
  - cbn. lia.
  - unfold restructure_step at 2. cbn [snd].
    destruct color_profile as [cp|];
      [destruct (negb (S counter mod 2 =? 0)%nat)|];
      rewrite IH, length_app, ?length_map; unfold row; lia.
Qed.


Section OutputClaims.

Variable Session : Type.
Variable Order : Type.
Variable get_transactions : Session -> Order -> list Transaction.
Variable build_stale : Transaction -> option ColorProfile -> string.
Variable bfh : Transaction -> string -> bool -> string.
Variable check : Lists -> string -> bool.
Variable tabulate : list row -> list string -> string.

Lemma organize_rows sender_lists target_lists color_profile columns transactions :
  total_rows (organize build_stale bfh check sender_lists target_lists color_profile
                columns transactions)
  = length (shown check sender_lists target_lists transactions).
Proof.
  unfold organize, shown.
  assert (H : forall rd,
            total_rows (fold_left (organize_step build_stale bfh check sender_lists
                                     target_lists color_profile columns) transactions rd)
            = (total_rows rd
               + length (List.filter (accepted check sender_lists target_lists)
                           transactions))%nat); [|apply (H [])].
  induction transactions as [|t transactions IH]; intros rd; cbn [fold_left List.filter].
  - cbn. lia.
  - rewrite IH. unfold organize_step, accepted.
    destruct (rejected check sender_lists (value (sender t))); cbn [negb andb]; [lia|].
    destruct (rejected check target_lists (value (target t))); cbn [negb andb]; [lia|].
    destruct (rd_mem (value (sender t)) rd) eqn:Hmem; cbn [negb length].
    + rewrite (total_rows_rd_append _ _ _ Hmem). lia.
    + rewrite total_rows_app. cbn. lia.
Qed.

Lemma build_headers_valid columns :
  valid_columns columns = true ->
  exists headers,
    build_headers columns = Ok headers
    /\ Forall2 (fun col header => dict_get COL_MAP col = Some header) columns headers.
Proof.
  unfold valid_columns. induction columns as [|col columns IH]; cbn [forallb build_headers].
  - intros _. exists []. split; [reflexivity|constructor].
  - intros H. apply andb_true_iff in H as [Hcol Hcols].
    destruct (IH Hcols) as (headers & -> & Hall).
    assert (Hget : exists h, dict_get COL_MAP col = Some h).
    { unfold mem, dict_keys in Hcol. clear -Hcol.
      induction COL_MAP as [|[k v] d IHd]; cbn in *; [discriminate|].
      destruct (String.eqb col k); [eauto|]. apply IHd. exact Hcol. }
    destruct Hget as [h Hget]. rewrite Hget. exists (h :: headers).
    split; [reflexivity|]. constructor; assumption.
Qed.

(** In a row, the cell of a [sender] column is the sender address when
    the row opens a group, and empty otherwise. *)
Lemma build_row_sender_cell color_profile columns t new_sender i :
  columns !! i = Some "sender" ->
  build_row build_stale bfh color_profile columns t new_sender !! i
  = Some (if new_sender then value (sender t) else "").
Proof.
  unfold build_row. revert i.
  induction columns as [|col columns IH]; intros [|i]; cbn; try discriminate.
  - intros [= ->]. reflexivity.
  - apply IH.
Qed.

Lemma shown_all transactions : shown check None None transactions = transactions.
Proof.
  unfold shown, accepted. cbn. induction transactions as [|t ts IH]; cbn; [|rewrite IH];
    reflexivity.
Qed.

(** C7 — For a session from which [get_transactions] returns no
    transaction, [get_output] returns, without raising, the message that no
    accepted ARP request was captured and that the whitelist/blacklist
    configuration should be checked, whatever the other arguments are. *)
Theorem get_output_no_transactions db_session order_by sender_lists target_lists
    color_profile columns :
  get_transactions db_session order_by = [] ->
  get_output Session Order get_transactions build_stale bfh check tabulate
    db_session order_by sender_lists target_lists color_profile columns
  = Ok no_transactions_message
  /\ contains "No accepted ARP requests captured" no_transactions_message = true
  /\ contains "check your whitelist/blacklist configuration" no_transactions_message
     = true.
Proof.
  intros Hnone. unfold get_output. rewrite Hnone.
  split; [reflexivity|]. split; vm_compute; reflexivity.
Qed.

(** C8 — For a session with transactions and valid columns, [get_output]
    hands [tabulate] one header for each requested column, the value of
    [COL_MAP] for it, in the order of [columns] (styled as a whole when a
    colour profile is set), and the rows of the shown transactions grouped
    by sender: one group for each distinct sender, in the order of first
    appearance, holding the rows of all transactions of that sender one
    after the other.  The first row of a group is built as the row of a new
    sender and the others are not, so that a [sender] cell holds the
    address on the first row and is empty on the following ones. *)
Theorem get_output_headers_and_groups db_session order_by sender_lists target_lists
    color_profile columns :
  get_transactions db_session order_by <> [] ->
  valid_columns columns = true ->
  exists headers txs,
    Forall2 (fun col header => dict_get COL_MAP col = Some header) columns headers
    /\ txs = shown check sender_lists target_lists (get_transactions db_session order_by)
    /\ get_output Session Order get_transactions build_stale bfh check tabulate
         db_session order_by sender_lists target_lists color_profile columns
       = Ok (tabulate
               (styled_groups color_profile
                  (map (fun s => group_rows build_stale bfh color_profile columns
                                   (transactions_of s txs))
                     (senders_in_order txs)))
               (match color_profile with
                | Some cp => style_header cp headers
                | None => headers
                end))
    /\ NoDup (senders_in_order txs)
    /\ (forall t ts,
          group_rows build_stale bfh color_profile columns (t :: ts)
          = build_row build_stale bfh color_profile columns t true
            :: map (fun t' => build_row build_stale bfh color_profile columns t' false) ts)
    /\ (forall t new_sender i,
          columns !! i = Some "sender" ->
          build_row build_stale bfh color_profile columns t new_sender !! i
          = Some (if new_sender then value (sender t) else "")).
Proof.
  intros Hsome Hvalid.
  destruct (build_headers_valid columns Hvalid) as (headers & Hheaders & Hall).
  exists headers, (shown check sender_lists target_lists (get_transactions db_session order_by)).
  split; [exact Hall|]. split; [reflexivity|]. split; [|split; [|split]].
  - unfold get_output.
    destruct (get_transactions db_session order_by) as [|t ts] eqn:Htxs; [contradiction|].
    rewrite Hheaders, restructure_styled, organize_grouped. unfold grouped, shown.
    rewrite map_map. reflexivity.
  - apply NoDup_senders_in_order.
  - reflexivity.
  - intros t new_sender i. apply build_row_sender_cell.
Qed.





End OutputClaims.

Lemma get_output_no_transactions_witness :
  get_output Examples.Session unit Examples.get_transactions Examples.build_stale
    Examples.bfh Lists_check Examples.tabulate
    [] tt None (Some Examples.target_lists) None COL_ORDER
  = Ok no_transactions_message
  /\ contains "No accepted ARP requests captured" no_transactions_message = true
  /\ contains "check your whitelist/blacklist configuration" no_transactions_message
     = true.
Proof.
  apply (get_output_no_transactions Examples.Session unit Examples.get_transactions
           Examples.build_stale Examples.bfh Lists_check Examples.tabulate
           [] tt None (Some Examples.target_lists) None COL_ORDER).
  reflexivity.
Defined.

Lemma get_output_headers_and_groups_witness :
  exists headers txs,
    Forall2 (fun col header => dict_get COL_MAP col = Some header)
      ["sender"; "target"] headers
    /\ txs = shown Lists_check None (Some Examples.target_lists)
               (Examples.get_transactions Examples.session tt)
    /\ get_output Examples.Session unit Examples.get_transactions Examples.build_stale
         Examples.bfh Lists_check Examples.tabulate
         Examples.session tt None (Some Examples.target_lists) None ["sender"; "target"]
       = Ok (Examples.tabulate
               (styled_groups None
                  (map (fun s => group_rows Examples.build_stale Examples.bfh None
                                   ["sender"; "target"] (transactions_of s txs))
                     (senders_in_order txs)))
               headers)
    /\ NoDup (senders_in_order txs)
    /\ (forall t ts,
          group_rows Examples.build_stale Examples.bfh None ["sender"; "target"] (t :: ts)
          = build_row Examples.build_stale Examples.bfh None ["sender"; "target"] t true
            :: map (fun t' => build_row Examples.build_stale Examples.bfh None
                                ["sender"; "target"] t' false) ts)
    /\ (forall t new_sender i,
          ["sender"; "target"] !! i = Some "sender" ->
          build_row Examples.build_stale Examples.bfh None ["sender"; "target"]
            t new_sender !! i
          = Some (if new_sender then value (sender t) else "")).
Proof.
  apply (get_output_headers_and_groups Examples.Session unit Examples.get_transactions
           Examples.build_stale Examples.bfh Lists_check Examples.tabulate
           Examples.session tt None (Some Examples.target_lists) None
           ["sender"; "target"]).
  - vm_compute. discriminate.
  - reflexivity.
Defined.

(** The table of the example session: the transaction to [10.0.0.10] has
    no row, and the second row of the first sender has an empty sender
    cell. *)
Example get_output_example :
  get_output Examples.Session unit Examples.get_transactions Examples.build_stale
    Examples.bfh Lists_check Examples.tabulate
    Examples.session tt None (Some Examples.target_lists) None ["sender"; "target"]
  = Ok (Examples.tabulate
          [ ["10.0.0.5"; "10.0.0.9"];
            [""; "10.0.0.11"];
            ["10.0.0.6"; "10.0.0.9"] ]
          ["Sender"; "Target"]).
Proof. vm_compute. reflexivity. Qed.


(** ** The anomaly flag *)


(** The flag does not depend on what it was before: a transaction that
    was flagged and whose target has no hostname any more is not flagged
    after [enrich]. *)
Example mitm_op_is_rewritten :
  mitm_op (Resolver.enrich (fun _ => None) (fun _ => None) true
             (mkTransaction (Examples.host "10.0.0.5") (Examples.host "10.0.0.9")
                3 false true))
  = false.
Proof. reflexivity. Qed.

(** With the same naming records, a second [enrich] changes nothing. *)
Lemma enrich_idempotent reverse_lookup forward_lookup reverse_enabled t :
  Resolver.enrich reverse_lookup forward_lookup reverse_enabled
    (Resolver.enrich reverse_lookup forward_lookup reverse_enabled t)
  = Resolver.enrich reverse_lookup forward_lookup reverse_enabled t.
Proof.
  assert (Hstep : forall h,
            Resolver.forward_step forward_lookup
              (Resolver.reverse_step reverse_lookup reverse_enabled
                 (fst (Resolver.forward_step forward_lookup
                         (Resolver.reverse_step reverse_lookup reverse_enabled h))))
            = Resolver.forward_step forward_lookup
                (Resolver.reverse_step reverse_lookup reverse_enabled h)).
  { intros [ip mac ptr fwd]. unfold Resolver.reverse_step, Resolver.forward_step.
    cbn. destruct ptr as [name|]; cbn; [reflexivity|].
    destruct reverse_enabled; cbn; [|reflexivity].
    destruct (reverse_lookup ip) as [name|] eqn:Hrev; cbn; [reflexivity|].
    rewrite Hrev. reflexivity. }
  unfold Resolver.enrich.
  pose proof (Hstep (sender t)) as Hs. pose proof (Hstep (target t)) as Hg.
  destruct (Resolver.forward_step forward_lookup
              (Resolver.reverse_step reverse_lookup reverse_enabled (sender t)))
    as [s bs].
  destruct (Resolver.forward_step forward_lookup
              (Resolver.reverse_step reverse_lookup reverse_enabled (target t)))
    as [g bg].
  cbn [sender target count stale mitm_op fst] in *. rewrite Hs, Hg. reflexivity.
Qed.


(** ** Examples *)

Example validate_ipv4_address : validate_ipv4 "10.0.0.5" = true.
Proof. reflexivity. Qed.

Example validate_ipv4_three_groups : validate_ipv4 "10.0.0" = false.
Proof. reflexivity. Qed.

Example validate_ipv4_long_group : validate_ipv4 "10.0.0.5555" = false.
Proof. reflexivity. Qed.

Example validate_ipv4_large_group : validate_ipv4 "999.0.0.5" = true.
Proof. reflexivity. Qed.

Example validate_ipv4_trailing_newline :
  validate_ipv4 (String.append "10.0.0.5" (String Re.newline "")) = true.
Proof. reflexivity. Qed.

Example validate_ipv4_trailing_space : validate_ipv4 "10.0.0.5 " = false.
Proof. reflexivity. Qed.

Example strip_line : strip (String.append "  10.0.0.8 " (String Re.newline "")) = "10.0.0.8".
Proof. reflexivity. Qed.

(** An address given once to the black list and twice to the white list
    goes from the black list and stays once in the white list. *)
Example resolve_conflicts_repeated_value :
  resolve_conflicts (mkLists ["10.0.0.1"; "10.0.0.1"] ["10.0.0.1"])
  = mkLists ["10.0.0.1"] [].
Proof. vm_compute. reflexivity. Qed.

(** The scenario of the specification: an address supplied to both lists
    goes from both, and with both lists empty it passes the check. *)
Example resolve_conflicts_scenario :
  resolve_conflicts (mkLists ["192.168.1.10"] ["192.168.1.10"]) = mkLists [] []
  /\ Lists_check (mkLists [] []) "192.168.1.10" = true.
Proof. split; vm_compute; reflexivity. Qed.

Example build_lists_example :
  build_lists Examples.fs Examples.args
  = ([warning "nothing-here"],
     Done (mkLists ["10.0.0.7"; "10.0.0.1"; "10.0.0.8"] [],
           mkLists ["10.0.0.1"; "10.0.0.8"] ["10.0.0.9"])).
Proof. vm_compute. reflexivity. Qed.

Example strict_dotted_quad_address : strict_dotted_quad "10.0.0.5" = true.
Proof. reflexivity. Qed.

Example strict_dotted_quad_large_octet : strict_dotted_quad "10.0.0.256" = false.
Proof. reflexivity. Qed.

(** * Further properties of the list population *)

Section PopulationClosedForms.

Variable fs : string -> option file.

(** X1 — The loop over the values of a sender or target argument never
    exits.  It visits the values in order up to the first one that names a
    path that exists and cannot be read: for each unusable value among
    them it prints one warning, and it appends to the list each address as
    it is and, in the place of the name of a readable file, the addresses
    of the file.  When no value names a path that cannot be read, it
    returns the list; otherwise it raises the exception of the first such
    value, after the warnings of the values before it. *)
Theorem populate_list_closed_form arg_val lst :
  populate_list fs arg_val lst
  = (map warning (List.filter (unusableb fs) (fst (until_read_error fs arg_val))),
     match snd (until_read_error fs arg_val) with
     | None => Done (lst ++ flat_map (contribution fs) (fst (until_read_error fs arg_val)))
     | Some e => Raised e
     end).
Proof. apply populate_list_run. Qed.

Lemma unusableb_spec v : unusableb fs v = true <-> unusable fs v.
Proof.
  unfold unusableb, unusable.
  destruct (validate_ipv4 v), (fs v); cbn; split;
    first [discriminate | intros [H1 H2]; discriminate | auto].
Qed.

Lemma existsb_unusableb vals :
  existsb (unusableb fs) vals = true <-> Exists (unusable fs) vals.
Proof.
  rewrite existsb_exists, Exists_exists. split.
  - intros (v & Hin & Hv). exists v. split; [apply list_elem_of_In; exact Hin|].
    apply unusableb_spec. exact Hv.
  - intros (v & Hin & Hv). exists v. split; [apply list_elem_of_In; exact Hin|].
    apply unusableb_spec. exact Hv.
Qed.

Lemma filter_valid_addresses lines :
  List.filter validate_ipv4 (ipv4_from_file lines) = ipv4_from_file lines.
Proof.
  induction lines as [|l lines IH]; cbn [ipv4_from_file]; [reflexivity|].
  destruct (validate_ipv4 (strip l)) eqn:Hl; [|exact IH].
  cbn [List.filter]. rewrite Hl, IH. reflexivity.
Qed.

Lemma file_addresses_of_addresses lines :
  flat_map (file_addresses fs) (ipv4_from_file lines) = [].
Proof.
  induction lines as [|l lines IH]; cbn [ipv4_from_file]; [reflexivity|].
  destruct (validate_ipv4 (strip l)) eqn:Hl; [|exact IH].
  cbn [flat_map]. unfold file_addresses at 1. rewrite Hl, IH. reflexivity.
Qed.

Lemma global_error_address v : validate_ipv4 v = true -> global_error fs v = None.
Proof. unfold global_error. intros ->. reflexivity. Qed.

Lemma first_error_app err l1 l2 :
  first_error err (l1 ++ l2)
  = match first_error err l1 with
    | Some e => Some e
    | None => first_error err l2
    end.
Proof.
  induction l1 as [|v l1 IH]; cbn [app first_error]; [reflexivity|].
  destruct (err v); [reflexivity|exact IH].
Qed.

Lemma first_error_addresses lines :
  first_error (global_error fs) (ipv4_from_file lines) = None.
Proof.
  induction lines as [|l lines IH]; cbn [ipv4_from_file]; [reflexivity|].
  destruct (validate_ipv4 (strip l)) eqn:Hl; [|exact IH].
  cbn [first_error]. rewrite (global_error_address _ Hl). exact IH.
Qed.

(** The run of the loop over the values of a general argument. *)
Lemma global_values_run vals values :
  global_values fs vals values
  = ([], match first_error (global_error fs) vals with
         | None => Done (values ++ List.filter validate_ipv4 vals
                           ++ flat_map (file_addresses fs) vals)
         | Some e => Raised e
         end).
Proof.
  funelim (global_values fs vals values).
  - cbn. rewrite app_nil_r. reflexivity.
  - rewrite H. cbn [first_error List.filter flat_map].
    replace (file_addresses fs ival) with (@nil string)
      by (unfold file_addresses; rewrite Hvalid; reflexivity).
    rewrite (global_error_address _ Hvalid), Hvalid.
    destruct (first_error (global_error fs) rest); [reflexivity|].
    cbn [app]. rewrite <- app_assoc. reflexivity.
  - rewrite H, first_error_app, first_error_addresses. cbn [first_error List.filter flat_map].
    replace (file_addresses fs ival) with (ipv4_from_file lines)
      by (unfold file_addresses; rewrite Hinvalid, Hfile; reflexivity).
    replace (global_error fs ival) with (@None exn)
      by (unfold global_error; rewrite Hinvalid, Hfile; reflexivity).
    rewrite Hinvalid.
    destruct (first_error (global_error fs) rest); [reflexivity|].
    rewrite List.filter_app, flat_map_app, filter_valid_addresses,
      file_addresses_of_addresses, app_nil_r, <- !app_assoc. reflexivity.
  - cbn [first_error]. unfold global_error. rewrite Hinvalid.
    match goal with Hf : fs ival = Some (Unreadable _) |- _ => rewrite Hf end.
    reflexivity.
  - cbn [first_error]. unfold global_error. rewrite Hinvalid.
    match goal with Hf : fs ival = None |- _ => rewrite Hf end.
    reflexivity.
Qed.

(** X2 — The loop over the values of a general argument prints nothing
    and never exits.  When every value is an address or names a readable
    file, it returns, and what it adds is first the values that are
    addresses, in order, and then the addresses of the files that the other
    values name, file by file.  Otherwise it raises the exception of the
    first value that is neither: [NameError] for the name [line] when the
    value names no existing path, and the exception of the reading when it
    names a path that cannot be read. *)
Theorem global_values_closed_form vals values :
  global_values fs vals values
  = ([], match first_error (global_error fs) vals with
         | None => Done (values ++ List.filter validate_ipv4 vals
                           ++ flat_map (file_addresses fs) vals)
         | Some e => Raised e
         end).
Proof. apply global_values_run. Qed.

(** X5 — When the population is over, each of the four lists holds the
    addresses supplied by the general argument of its kind and by its own
    argument, and no other value: a sender argument adds nothing to a
    target list, and an allow argument nothing to a deny list. *)
Theorem lists_hold_the_supplied_addresses args tr lists :
  populate fs args = (tr, Done lists) ->
  forall ht lt v,
    v ∈ the_list ht lt lists <->
    supplied fs (global_arg args lt) v \/ supplied fs (list_arg args ht lt) v.
Proof. intros Hrun ht lt v. apply (populate_done fs args tr lists Hrun). Qed.

Ltac run_outcome :=
  unfold completes_if, without_read_error; cbn [from_option id forallb];
  first [ do 2 eexists; reflexivity
        | do 2 eexists; split; [reflexivity|eassumption] ].

Lemma completes_if_bind {A B : Type} b1 b2 P (m : M A) (f : A -> M B) :
  completes_if b1 P m ->
  (forall a, completes_if b2 P (f a)) ->
  completes_if (b1 && b2) P (m ≫= f).
Proof.
  unfold completes_if. destruct b1; cbn [andb].
  - intros (tr & a & Hm) Hf. specialize (Hf a). rewrite (bind_done_eq _ _ _ _ Hm).
    destruct b2.
    + destruct Hf as (tr' & b & ->). run_outcome.
    + destruct Hf as (tr' & e & -> & He). run_outcome.
  - intros (tr & e & Hm & He) _. rewrite (bind_raised _ _ _ _ Hm). run_outcome.
Qed.

Lemma first_error_cases vals :
  if forallb (openable fs) vals
  then first_error (global_error fs) vals = None
  else exists e, first_error (global_error fs) vals = Some e /\ raisable fs e.
Proof.
  induction vals as [|v vals IH]; cbn [forallb first_error]; [reflexivity|].
  assert (Hhead : (openable fs v = true /\ global_error fs v = None)
                  \/ (openable fs v = false
                      /\ exists e, global_error fs v = Some e /\ raisable fs e)).
  { unfold openable, global_error, raisable.
    destruct (validate_ipv4 v) eqn:Hv; [left; auto|].
    destruct (fs v) as [[lines|e]|] eqn:Hf; cbn [orb].
    - left. auto.
    - right. split; [reflexivity|]. exists e. split; [reflexivity|].
      right. exists v. auto.
    - right. split; [reflexivity|]. exists (NameError "line"). auto. }
  destruct Hhead as [[-> ->] | [-> (e & -> & He)]]; cbn [andb]; [exact IH|eauto].
Qed.

Lemma populate_global_list_cases args lt lists :
  completes_if (forallb (openable fs) (default [] (global_arg args lt))) (raisable fs)
    (populate_global_list fs args lt lists).
Proof.
  unfold populate_global_list, completes_if.
  destruct (global_arg args lt) as [[|ival vals]|].
  - run_outcome.
  - pose proof (first_error_cases (ival :: vals)) as Hc. rewrite global_values_run.
    change (default [] (Some (ival :: vals))) with (ival :: vals).
    destruct (forallb (openable fs) (ival :: vals)).
    + rewrite Hc. run_outcome.
    + destruct Hc as (e & -> & He). run_outcome.
  - run_outcome.
Qed.

Lemma until_read_error_cases vals :
  if without_read_error fs (Some vals)
  then until_read_error fs vals = (vals, None)
  else exists pre e, until_read_error fs vals = (pre, Some e) /\ raisable fs e.
Proof.
  unfold without_read_error. cbn [from_option id].
  induction vals as [|v vals IH]; cbn [forallb until_read_error]; [reflexivity|].
  cbv beta. destruct (read_error fs v) as [e|] eqn:Hr; cbn [andb].
  - exists [], e. split; [reflexivity|]. right. exists v.
    unfold read_error in Hr. destruct (validate_ipv4 v); [discriminate|].
    destruct (fs v) as [[lines|e']|]; try discriminate. injection Hr as ->. auto.
  - destruct (forallb _ vals).
    + rewrite IH. reflexivity.
    + destruct IH as (pre & e & -> & He). exists (v :: pre), e. auto.
Qed.

Lemma populate_argument_cases lists ht lt arg_val :
  completes_if (without_read_error fs arg_val) (raisable fs)
    (populate_argument fs lists (ht, lt, arg_val)).
Proof.
  unfold populate_argument, completes_if.
  destruct arg_val as [[|line rest]|].
  - run_outcome.
  - pose proof (until_read_error_cases (line :: rest)) as Hc.
    destruct (without_read_error fs (Some (line :: rest)));
      destruct ht; rewrite populate_list_run;
      [rewrite Hc | rewrite Hc | destruct Hc as (pre & e & -> & He)
       | destruct Hc as (pre & e & -> & He)]; run_outcome.
  - run_outcome.
Qed.

Lemma populate_arguments_cases arguments : forall lists,
  completes_if (forallb (fun arg => without_read_error fs (snd arg)) arguments)
    (raisable fs) (populate_arguments fs arguments lists).
Proof.
  induction arguments as [|[[ht lt] arg_val] arguments IH]; intros lists;
    cbn [forallb populate_arguments snd].
  - run_outcome.
  - apply completes_if_bind; [apply populate_argument_cases|exact IH].
Qed.

(** Building the lists returns exactly when the lists can be built, and
    raises otherwise. *)
Lemma build_lists_cases args :
  completes_if (lists_buildable fs args) (raisable fs) (build_lists fs args).
Proof.
  assert (Hb : lists_buildable fs args
               = forallb (openable fs) (default [] (global_arg args White))
                 && forallb (openable fs) (default [] (global_arg args Black))
                 && forallb (fun arg => without_read_error fs (snd arg)) (list_arguments args)
                 && true).
  { unfold lists_buildable, list_arguments. cbn [forallb snd global_arg].
    rewrite !andb_true_r, !andb_assoc. reflexivity. }
  rewrite Hb. unfold build_lists, populate, populate_global.
  apply completes_if_bind; [apply completes_if_bind; [apply completes_if_bind|]|].
  - apply populate_global_list_cases.
  - intros lists. apply populate_global_list_cases.
  - intros lists. apply populate_arguments_cases.
  - intros lists. run_outcome.
Qed.

(** X3 — Building the lists never exits, and whether it returns is decided
    by the values of the six list arguments.  It returns the lists when
    every value of the two general arguments is an address or names a
    readable file and no value of the four sender and target arguments
    names a path that exists and cannot be read; an unusable value of a
    sender or target argument costs a warning only.  Otherwise it raises:
    [NameError] for the name [line], or the exception of reading a path
    that is no address and cannot be read. *)
Theorem build_lists_outcomes args :
  if lists_buildable fs args
  then exists tr lists, build_lists fs args = (tr, Done lists)
  else exists tr e, build_lists fs args = (tr, Raised e) /\ raisable fs e.
Proof. exact (build_lists_cases args). Qed.

End PopulationClosedForms.

Lemma populate_list_closed_form_witness :
  populate_list Examples.fs ["10.0.0.1"; "nothing-here"; "hosts.txt"; "10.0.0.2"] ["10.0.0.9"]
  = ([warning "nothing-here"],
     Done ["10.0.0.9"; "10.0.0.1"; "10.0.0.7"; "10.0.0.8"; "10.0.0.2"]).
Proof.
  exact (populate_list_closed_form Examples.fs
           ["10.0.0.1"; "nothing-here"; "hosts.txt"; "10.0.0.2"] ["10.0.0.9"]).
Defined.

(** A directory among the values: the warning of the value before it is
    printed, the values after it are not visited. *)
Example populate_list_directory :
  populate_list Examples.fs ["10.0.0.1"; "nothing-here"; "."; "nowhere"; "10.0.0.2"] []
  = ([warning "nothing-here"], Raised IsADirectoryError).
Proof. rewrite populate_list_run. reflexivity. Qed.

Lemma global_values_closed_form_witness :
  global_values Examples.fs ["10.0.0.1"; "hosts.txt"; "10.0.0.2"] []
  = ([], Done ["10.0.0.1"; "10.0.0.2"; "10.0.0.7"; "10.0.0.8"]).
Proof.
  exact (global_values_closed_form Examples.fs ["10.0.0.1"; "hosts.txt"; "10.0.0.2"] []).
Defined.

(** The first value that cannot be used decides the exception. *)
Example global_values_directory_first :
  global_values Examples.fs ["10.0.0.1"; "."; "bogus"] [] = ([], Raised IsADirectoryError)
  /\ global_values Examples.fs ["10.0.0.1"; "bogus"; "."] [] = ([], Raised (NameError "line")).
Proof. rewrite !global_values_run. split; reflexivity. Qed.

Lemma build_lists_outcomes_witness :
  exists tr e,
    build_lists Examples.fs Examples.args_directory = (tr, Raised e)
    /\ raisable Examples.fs e.
Proof.
  exact (build_lists_outcomes Examples.fs Examples.args_directory).
Defined.

(** * Further properties of the run *)

Section RunOutcomes.

Variable fs : string -> option file.
Variable Session : Type.
Variable Order : Type.
Variable desc : Order.
Variable get_transactions : Session -> Order -> list Transaction.
Variable build_stale : Transaction -> option ColorProfile -> string.
Variable bfh : Transaction -> string -> bool -> string.
Variable check : Lists -> string -> bool.
Variable tabulate : list row -> list string -> string.
Variable analyzed_db : Args -> Lists -> Lists -> Session.

Lemma quiet_not_handed_over {A : Type} (m : M A) sender_lists target_lists :
  quiet m -> ~ handed_over sender_lists target_lists (fst m).
Proof.
  unfold quiet. rewrite Forall_forall.
  intros Hq [Hin | Hin]; apply Hq in Hin; discriminate.
Qed.

Lemma run_analyze_hands_over args sl tl sl' tl' :
  handed_over sl' tl'
    (fst (run_analyze Session Order desc get_transactions build_stale bfh check
            tabulate analyzed_db args sl tl)) ->
  sl' = sl /\ tl' = tl.
Proof.
  unfold run_analyze, handed_over.
  set (out := match output_columns args with
              | Some columns => _
              | None => _
              end).
  assert (Hout : forall e, e ∈ fst out -> exists text, e = Print text).
  { subst out. destruct (output_columns args) as [columns|].
    - destruct (get_output _ _ _ _ _ _ _ _ _ _ _ _ _) as [text|e]; cbn;
        intros ev Hev; [|inversion Hev].
      apply list_elem_of_singleton in Hev. eauto.
    - cbn. intros ev Hev. inversion Hev. }
  assert (Hfull : forall e,
            e ∈ fst (emit (RunAnalyze sl tl) ≫= (fun _ =>
                     emit (CreateDb (database_output_file args)) ≫= (fun _ => out))) ->
            e = RunAnalyze sl tl \/ e = CreateDb (database_output_file args)
            \/ exists text, e = Print text).
  { intros e. destruct out as [tr o]. cbn in *. destruct o; cbn;
      rewrite !elem_of_cons; intros [-> | [-> | He]]; auto. }
  destruct (pcap_files args), (sqlite_files args);
    [intros Hover; exfalso; revert Hover; apply quiet_not_handed_over;
       repeat constructor | ..];
    (intros [Hin | Hin]; apply Hfull in Hin as [Hin | [Hin | [text Hin]]];
     try discriminate; injection Hin as -> ->; auto).
Qed.

(** X4 — Whenever a run hands lists over to the analysis or to the
    capture, these lists went through the conflict resolution: in each of
    the two objects no value is in both lists and no list holds a value
    twice. *)
Theorem handed_over_lists_are_resolved args tr o sender_lists target_lists :
  main fs Session Order desc get_transactions build_stale bfh check tabulate
    analyzed_db args = (tr, o) ->
  handed_over sender_lists target_lists tr ->
  ((forall x, x ∈ white sender_lists -> x ∉ black sender_lists)
   /\ NoDup (white sender_lists) /\ NoDup (black sender_lists))
  /\ ((forall x, x ∈ white target_lists -> x ∉ black target_lists)
      /\ NoDup (white target_lists) /\ NoDup (black target_lists)).
Proof.
  unfold main. destruct (cmd args) as [c|].
  - intros Hmain Hover.
    apply bind_inv in Hmain
      as [(tr0 & [] & tr1 & Hc & Hmain & ->) | [[Hc ->] | (e & Hc & ->)]].
    + apply bind_inv in Hmain
        as [(tr2 & lists & tr3 & Hl & Hmain & ->) | [[Hl ->] | (e & Hl & ->)]].
      * assert (Hlast : handed_over sender_lists target_lists tr3).
        { destruct Hover as [Hin | Hin]; rewrite !elem_of_app in Hin;
            destruct Hin as [Hin | [Hin | Hin]];
            try (left; exact Hin); try (right; exact Hin); exfalso.
          - apply (quiet_not_handed_over _ sender_lists target_lists
                     (quiet_check_columns args)). rewrite Hc. left. exact Hin.
          - apply (quiet_not_handed_over _ sender_lists target_lists
                     (quiet_build_lists fs args)). rewrite Hl. left. exact Hin.
          - apply (quiet_not_handed_over _ sender_lists target_lists
                     (quiet_check_columns args)). rewrite Hc. right. exact Hin.
          - apply (quiet_not_handed_over _ sender_lists target_lists
                     (quiet_build_lists fs args)). rewrite Hl. right. exact Hin. }
        assert (Heq : sender_lists = fst lists /\ target_lists = snd lists).
        { destruct c.
          - apply (run_analyze_hands_over args). rewrite Hmain. exact Hlast.
          - unfold run_capture in Hmain. injection Hmain as <- _.
            destruct Hlast as [Hin | Hin]; apply list_elem_of_singleton in Hin;
              [discriminate|]. injection Hin as -> ->. auto. }
        destruct Heq as [-> ->]. unfold build_lists in Hl.
        apply bind_done in Hl as (tr4 & l0 & tr5 & _ & Hret & _).
        injection Hret as _ <-. split; apply resolve_conflicts_invariant.
      * exfalso. assert (Hq : quiet (check_columns args ≫= fun _ => build_lists fs args)).
        { apply quiet_bind; [apply quiet_check_columns|]. intros _. apply quiet_build_lists. }
        rewrite (bind_done_eq _ _ _ _ Hc), Hl in Hq.
        apply (quiet_not_handed_over _ sender_lists target_lists Hq). exact Hover.
      * exfalso. assert (Hq : quiet (check_columns args ≫= fun _ => build_lists fs args)).
        { apply quiet_bind; [apply quiet_check_columns|]. intros _. apply quiet_build_lists. }
        rewrite (bind_done_eq _ _ _ _ Hc), Hl in Hq.
        apply (quiet_not_handed_over _ sender_lists target_lists Hq). exact Hover.
    + exfalso. apply (quiet_not_handed_over _ sender_lists target_lists
                        (quiet_check_columns args)). rewrite Hc. exact Hover.
    + exfalso. apply (quiet_not_handed_over _ sender_lists target_lists
                        (quiet_check_columns args)). rewrite Hc. exact Hover.
  - intros [= <- _] [Hin | Hin]; apply list_elem_of_singleton in Hin; discriminate.
Qed.

End RunOutcomes.

(** * Further properties of the conflict resolution *)

Lemma occurrences_cons x v l :
  occurrences x (v :: l) = ((if String.eqb x v then 1 else 0) + occurrences x l)%nat.
Proof. unfold occurrences. cbn [List.filter]. destruct (String.eqb x v); reflexivity. Qed.

Lemma occurrences_app x l1 l2 :
  occurrences x (l1 ++ l2) = (occurrences x l1 + occurrences x l2)%nat.
Proof. unfold occurrences. rewrite List.filter_app, length_app. reflexivity. Qed.

Lemma occurrences_pos x l : x ∈ l <-> (0 < occurrences x l)%nat.
Proof.
  induction l as [|v l IH].
  - cbn. split; [intros H; inversion H|lia].
  - rewrite occurrences_cons, elem_of_cons, IH.
    destruct (String.eqb_spec x v) as [-> | Hne]; split; intros H; try lia; auto.
    destruct H as [H | H]; [contradiction|exact H].
Qed.

Lemma occurrences_delete x l : forall i v,
  l !! i = Some v ->
  (occurrences x (delete i l) + (if String.eqb x v then 1 else 0))%nat
  = occurrences x l.
Proof.
  induction l as [|y l IH]; intros [|i] v Hv; try discriminate Hv.
  - injection Hv as ->. change (delete 0%nat (v :: l)) with l.
    rewrite occurrences_cons. lia.
  - change (delete (S i) (y :: l)) with (y :: delete i l).
    change (l !! i = Some v) in Hv.
    rewrite !occurrences_cons, <- (IH i v Hv). lia.
Qed.

Lemma index_Some val l i : index val l = Some i -> l !! i = Some val.
Proof.
  revert i. induction l as [|x l IH]; intros i; cbn [index]; [discriminate|].
  destruct (String.eqb_spec x val) as [-> | Hne].
  - intros [= <-]. reflexivity.
  - destruct (index val l) as [j|]; cbn; [|discriminate].
    intros [= <-]. cbn. apply IH. reflexivity.
Qed.

Lemma drop_delete_same (l : list string) i : drop i (delete i l) = drop (S i) l.
Proof.
  revert i. induction l as [|y l IH]; intros [|i]; cbn; try reflexivity.
  apply IH.
Qed.

(** The loop cancels the occurrences of a value in the two lists one
    against one. *)
Lemma conflict_loop_occurrences white black counter : forall w b,
  conflict_loop white black counter = (w, b) ->
  forall x,
    occurrences x w
    = (occurrences x (take counter white)
       + (occurrences x (drop counter white) - occurrences x black))%nat
    /\ occurrences x b
       = (occurrences x black - occurrences x (drop counter white))%nat.
Proof.
  funelim (conflict_loop white black counter); intros w b Hrun x.
  - injection Hrun as <- <-.
    match goal with
    | Hnone : _ !! _ = None |- _ => apply lookup_ge_None in Hnone as Hge
    end.
    rewrite take_ge, drop_ge by exact Hge. cbn. lia.
  - destruct (H _ _ Hrun x) as [Hw Hb]. rewrite Hw, Hb.
    rewrite take_delete_same, drop_delete_same.
    rewrite (drop_S _ _ _ Hval), occurrences_cons.
    match goal with
    | Hind : index _ _ = Some _ |- _ =>
        pose proof (occurrences_delete x _ _ _ (index_Some _ _ _ Hind)) as Hd
    end.
    destruct (String.eqb x val); lia.
  - destruct (H _ _ Hrun x) as [Hw Hb]. rewrite Hw, Hb.
    rewrite (take_S_r _ _ _ Hval), (drop_S _ _ _ Hval), occurrences_app, !occurrences_cons.
    destruct (String.eqb_spec x val) as [-> | Hne]; [|cbn; lia].
    match goal with
    | Hind : index _ ?b = None |- _ =>
        assert (Hzero : occurrences val b = 0%nat);
        [apply index_None in Hind; rewrite occurrences_pos in Hind; lia|]
    end.
    rewrite Hzero. cbn. lia.
Qed.

Lemma resolve_conflicts_occurrences var x :
  (x ∈ white (resolve_conflicts var)
   <-> (occurrences x (black var) < occurrences x (white var))%nat)
  /\ (x ∈ black (resolve_conflicts var)
      <-> (occurrences x (white var) < occurrences x (black var))%nat).
Proof.
  unfold resolve_conflicts, resolve_conflicts_with.
  destruct (conflict_loop (white var) (black var) 0) as [w b] eqn:Hloop.
  destruct (conflict_loop_occurrences _ _ _ _ _ Hloop x) as [Hw Hb].
  rewrite take_0, drop_0 in Hw. rewrite drop_0 in Hb.
  cbn [white black]. rewrite !elem_of_list_set, !occurrences_pos, Hw, Hb.
  cbn. split; lia.
Qed.

(** X6 — The conflict resolution of one object cancels the occurrences of
    a value in the white list against its occurrences in the black list:
    the value stays in the white list exactly when the white list held it
    more often than the black list, and in the black list exactly when the
    black list held it more often.  A value that both lists held equally
    often is in neither. *)
Theorem resolve_conflicts_majority var x :
  (x ∈ white (resolve_conflicts var)
   <-> (occurrences x (black var) < occurrences x (white var))%nat)
  /\ (x ∈ black (resolve_conflicts var)
      <-> (occurrences x (white var) < occurrences x (black var))%nat).
Proof. apply resolve_conflicts_occurrences. Qed.

Lemma index_elem_of val l i : index val l = Some i -> val ∈ l.
Proof.
  intros Hi. destruct (decide (val ∈ l)) as [Hin | Hnot]; [exact Hin|].
  apply index_None in Hnot. congruence.
Qed.

(** On lists without a common value the loop changes nothing. *)
Lemma conflict_loop_disjoint_lists white black counter :
  (forall x, x ∈ drop counter white -> x ∉ black) ->
  conflict_loop white black counter = (white, black).
Proof.
  funelim (conflict_loop white black counter); intros Hdisjoint.
  - reflexivity.
  - exfalso. apply (Hdisjoint val).
    + rewrite (drop_S _ _ _ Hval). left.
    + match goal with
      | Hind : index _ _ = Some _ |- _ => exact (index_elem_of _ _ _ Hind)
      end.
  - apply H. intros x Hx. apply Hdisjoint.
    rewrite (drop_S _ _ _ Hval). right. exact Hx.
Qed.

Lemma list_set_list_set l : list_set (list_set l) = list_set l.
Proof. unfold list_set. rewrite list_to_set_elements_L. reflexivity. Qed.

Lemma conflict_loop_no_common white black w b :
  conflict_loop white black 0 = (w, b) -> forall x, x ∈ w -> x ∉ b.
Proof.
  intros Hloop x Hw Hb.
  destruct (conflict_loop_occurrences _ _ _ _ _ Hloop x) as [Ew Eb].
  rewrite take_0, drop_0 in Ew. rewrite drop_0 in Eb.
  apply occurrences_pos in Hw, Hb. cbn in Ew. lia.
Qed.

Lemma list_set_enumeration : set_enumeration list_set.
Proof.
  intros l. split; [apply NoDup_list_set|]. intros x. apply elem_of_list_set.
Qed.

Lemma rev_list_set_enumeration : set_enumeration (fun l => rev (list_set l)).
Proof.
  intros l. split.
  - rewrite <- Permutation_rev. apply NoDup_list_set.
  - intros x. rewrite <- Permutation_rev. apply elem_of_list_set.
Qed.

(** X7 — The conflict resolution is idempotent up to the order of the
    lists, in whatever order [list(set(...))] enumerates a set, the first
    time and the second: resolving an object that has been resolved gives
    two lists with the same values, each once, as the lists it had. *)
Theorem resolve_conflicts_idempotent enum enum' var :
  set_enumeration enum ->
  set_enumeration enum' ->
  white (resolve_conflicts_with enum' (resolve_conflicts_with enum var))
  ≡ₚ white (resolve_conflicts_with enum var)
  /\ black (resolve_conflicts_with enum' (resolve_conflicts_with enum var))
     ≡ₚ black (resolve_conflicts_with enum var).
Proof.
  intros Henum Henum'. unfold resolve_conflicts_with.
  destruct (conflict_loop (white var) (black var) 0) as [w b] eqn:Hloop.
  cbn [white black].
  rewrite conflict_loop_disjoint_lists.
  - cbn [white black].
    split; apply NoDup_Permutation;
      first [apply Henum' | apply Henum | intros x; apply Henum'].
  - intros x Hx. rewrite drop_0 in Hx.
    destruct (Henum w) as [_ Hw]. destruct (Henum b) as [_ Hb].
    rewrite Hw in Hx. rewrite Hb.
    exact (conflict_loop_no_common _ _ _ _ Hloop x Hx).
Qed.

Lemma resolve_conflicts_idempotent_witness :
  white (resolve_conflicts_with (fun l => rev (list_set l))
           (resolve_conflicts_with list_set
              (mkLists ["10.0.0.1"; "10.0.0.2"; "10.0.0.3"] ["10.0.0.2"; "10.0.0.4"])))
  ≡ₚ white (resolve_conflicts_with list_set
              (mkLists ["10.0.0.1"; "10.0.0.2"; "10.0.0.3"] ["10.0.0.2"; "10.0.0.4"]))
  /\ black (resolve_conflicts_with (fun l => rev (list_set l))
              (resolve_conflicts_with list_set
                 (mkLists ["10.0.0.1"; "10.0.0.2"; "10.0.0.3"] ["10.0.0.2"; "10.0.0.4"])))
     ≡ₚ black (resolve_conflicts_with list_set
                 (mkLists ["10.0.0.1"; "10.0.0.2"; "10.0.0.3"] ["10.0.0.2"; "10.0.0.4"])).
Proof.
  apply (resolve_conflicts_idempotent list_set (fun l => rev (list_set l))
           (mkLists ["10.0.0.1"; "10.0.0.2"; "10.0.0.3"] ["10.0.0.2"; "10.0.0.4"])).
  - exact list_set_enumeration.
  - exact rev_list_set_enumeration.
Defined.

(** * Further properties of the column check *)

Lemma no_bad_column columns :
  List.filter (fun v => negb (mem v (dict_keys COL_MAP))) columns = []
  <-> valid_columns columns = true.
Proof.
  unfold valid_columns. induction columns as [|col columns IH]; cbn [List.filter forallb].
  - tauto.
  - destruct (mem col (dict_keys COL_MAP)); cbn [negb andb].
    + exact IH.
    + split; discriminate.
Qed.

(** X8 — The column check passes, silently, exactly when the arguments
    carry no column selection or a selection that is not empty and holds
    only keys of [COL_MAP]; repeated keys and any order are accepted. *)
Theorem check_columns_passes args :
  check_columns args = ([], Done tt) <->
  match output_columns args with
  | None => True
  | Some columns => columns <> [] /\ valid_columns columns = true
  end.
Proof.
  unfold check_columns. destruct (output_columns args) as [[|col cols]|].
  - split; [discriminate|]. intros [H _]. contradiction.
  - rewrite <- no_bad_column.
    destruct (List.filter _ (col :: cols)) as [|b bad].
    + split; [|reflexivity]. intros _. split; [discriminate|reflexivity].
    + split; [discriminate|]. intros [_ H]. discriminate.
  - tauto.
Qed.

(** * Further properties of [get_output] *)

Lemma dict_get_unknown {V : Type} (d : list (string * V)) k :
  mem k (dict_keys d) = false -> dict_get d k = None.
Proof.
  unfold mem, dict_keys. induction d as [|[k' v] d IH]; cbn; [reflexivity|].
  destruct (String.eqb k k'); [discriminate|exact IH].
Qed.

Section OutputEdges.

Variable Session : Type.
Variable Order : Type.
Variable get_transactions : Session -> Order -> list Transaction.
Variable build_stale : Transaction -> option ColorProfile -> string.
Variable bfh : Transaction -> string -> bool -> string.
Variable check : Lists -> string -> bool.
Variable tabulate : list row -> list string -> string.

Lemma build_headers_unknown pre col post :
  valid_columns pre = true ->
  mem col (dict_keys COL_MAP) = false ->
  build_headers (pre ++ col :: post) = Raise (KeyError col).
Proof.
  intros Hpre Hcol. induction pre as [|c pre IH]; cbn [app build_headers].
  - rewrite (dict_get_unknown _ _ Hcol). reflexivity.
  - unfold valid_columns in Hpre. cbn [forallb] in Hpre.
    apply andb_true_iff in Hpre as [Hc Hpre].
    destruct (build_headers_valid [c]) as (hs & Hhs & _).
    { unfold valid_columns. cbn [forallb]. rewrite Hc. reflexivity. }
    cbn [build_headers] in Hhs. destruct (dict_get COL_MAP c); [|discriminate].
    rewrite (IH Hpre). reflexivity.
Qed.

Lemma restructure_plain rd : restructure None rd = concat (map snd rd).
Proof.
  unfold restructure.
  assert (H : forall rows counter,
            fold_left (restructure_step None) rd (rows, counter)
            = (rows ++ concat (map snd rd), (counter + length rd)%nat)).
  { induction rd as [|item rd IH]; intros rows counter; cbn [fold_left map concat length].
    - rewrite app_nil_r, Nat.add_0_r. reflexivity.
    - unfold restructure_step at 2. rewrite IH, <- app_assoc. f_equal. lia. }
  rewrite H. reflexivity.
Qed.

Lemma grouped_rows_width color_profile columns txs :
  Forall (fun r : row => length r = length columns)
    (concat (map snd (grouped build_stale bfh color_profile columns txs))).
Proof.
  apply List.Forall_concat. unfold grouped. rewrite map_map. cbn [snd].
  apply List.Forall_map, Forall_forall. intros s _.
  unfold group_rows. destruct (transactions_of s txs) as [|t ts]; constructor.
  - unfold build_row. apply length_map.
  - apply List.Forall_map, Forall_forall. intros t' _. unfold build_row. apply length_map.
Qed.

(** X9 — When the session holds transactions and the lists reject every
    one of them, [get_output] does not return the message about an empty
    capture: it returns the table of the headers alone, without any
    row. *)
Theorem get_output_all_rejected db_session order_by sender_lists target_lists
    color_profile columns :
  get_transactions db_session order_by <> [] ->
  shown check sender_lists target_lists (get_transactions db_session order_by) = [] ->
  valid_columns columns = true ->
  exists headers,
    Forall2 (fun col header => dict_get COL_MAP col = Some header) columns headers
    /\ get_output Session Order get_transactions build_stale bfh check tabulate
         db_session order_by sender_lists target_lists color_profile columns
       = Ok (tabulate []
               (match color_profile with
                | Some cp => style_header cp headers
                | None => headers
                end)).
Proof.
  intros Hsome Hnone Hvalid.
  destruct (build_headers_valid columns Hvalid) as (headers & Hheaders & Hall).
  exists headers. split; [exact Hall|]. unfold get_output.
  destruct (get_transactions db_session order_by) as [|t ts] eqn:Htxs; [contradiction|].
  rewrite organize_grouped. fold (shown check sender_lists target_lists (t :: ts)).
  rewrite Hnone, Hheaders. reflexivity.
Qed.

(** X10 — When the session holds transactions of which the lists reject
    every one, so that no cell is built, a column name outside [COL_MAP]
    makes [get_output] raise [KeyError] for that name; with several such
    names it is the first one. *)
Theorem get_output_unknown_column db_session order_by sender_lists target_lists
    color_profile pre col post :
  get_transactions db_session order_by <> [] ->
  shown check sender_lists target_lists (get_transactions db_session order_by) = [] ->
  valid_columns pre = true ->
  mem col (dict_keys COL_MAP) = false ->
  get_output Session Order get_transactions build_stale bfh check tabulate
    db_session order_by sender_lists target_lists color_profile (pre ++ col :: post)
  = Raise (KeyError col).
Proof.
  intros Hsome Hnone Hpre Hcol. unfold get_output.
  destruct (get_transactions db_session order_by) as [|t ts] eqn:Htxs; [contradiction|].
  rewrite (build_headers_unknown pre col post Hpre Hcol). reflexivity.
Qed.

(** X11 — Without a colour profile the table is rectangular: there is one
    header for each column, every row has one cell for each column, and
    there is one row for each transaction that the lists accept. *)
Theorem get_output_rectangular db_session order_by sender_lists target_lists columns :
  get_transactions db_session order_by <> [] ->
  valid_columns columns = true ->
  exists rows headers,
    get_output Session Order get_transactions build_stale bfh check tabulate
      db_session order_by sender_lists target_lists None columns
    = Ok (tabulate rows headers)
    /\ length headers = length columns
    /\ Forall (fun r : row => length r = length columns) rows
    /\ length rows
       = length (shown check sender_lists target_lists
                   (get_transactions db_session order_by)).
Proof.
  intros Hsome Hvalid.
  destruct (build_headers_valid columns Hvalid) as (headers & Hheaders & Hall).
  exists (restructure None
            (organize build_stale bfh check sender_lists target_lists None columns
               (get_transactions db_session order_by))), headers.
  split; [|split; [|split]].
  - unfold get_output.
    destruct (get_transactions db_session order_by) as [|t ts] eqn:Htxs; [contradiction|].
    rewrite Hheaders. reflexivity.
  - symmetry. eapply Forall2_length. exact Hall.
  - rewrite restructure_plain, organize_grouped. apply grouped_rows_width.
  - rewrite restructure_length. apply organize_rows.
Qed.

End OutputEdges.

(** * Further properties of the address pattern and of address files *)

Lemma lstrip_head s c s' : lstrip s = c :: s' -> is_space c = false.
Proof.
  induction s as [|x s IH]; cbn [lstrip]; [discriminate|].
  destruct (is_space x) eqn:Hx; [exact IH|]. intros [= <- _]. exact Hx.
Qed.

Lemma rstrip_last s p c : rstrip s = p ++ [c] -> is_space c = false.
Proof.
  unfold rstrip. intros Hrev.
  assert (Hl : lstrip (rev s) = c :: rev p).
  { rewrite <- (rev_involutive (lstrip (rev s))), Hrev, rev_app_distr. reflexivity. }
  exact (lstrip_head _ _ _ Hl).
Qed.

Lemma strip_last line p c :
  list_ascii_of_string (strip line) = p ++ [c] -> is_space c = false.
Proof.
  unfold strip. rewrite list_ascii_of_string_of_list_ascii. apply rstrip_last.
Qed.

(** X12 — An address taken from a file never carries the final newline
    that the pattern tolerates: it is made of the four groups of digits and
    the three dots, and of nothing else. *)
Theorem ipv4_from_file_clean lines v :
  v ∈ ipv4_from_file lines ->
  exists a b c d,
    list_ascii_of_string v = a ++ "."%char :: b ++ "."%char :: c ++ "."%char :: d
    /\ digit_group a /\ digit_group b /\ digit_group c /\ digit_group d.
Proof.
  intros Hin. apply elem_of_ipv4_from_file in Hin as (Hv & line & _ & ->).
  apply validate_ipv4_dotted_groups in Hv
    as (a & b & c & d & tail & Heq & Ha & Hb & Hc & Hd & [-> | ->]).
  - rewrite app_nil_r in Heq. exists a, b, c, d. auto.
  - exfalso.
    assert (Hlast : list_ascii_of_string (strip line)
                    = (a ++ "."%char :: b ++ "."%char :: c ++ "."%char :: d)
                      ++ [Re.newline]).
    { rewrite Heq. repeat first [rewrite <- app_assoc | rewrite <- app_comm_cons].
      reflexivity. }
    apply strip_last in Hlast. discriminate.
Qed.

Lemma length_list_ascii_of_string v :
  length (list_ascii_of_string v) = String.length v.
Proof. induction v as [|c v IH]; cbn; [reflexivity|]. rewrite IH. reflexivity. Qed.

(** X13 — A value that [validate_ipv4] accepts has between 7 and 16
    characters, and each of them is a decimal digit, a dot or a newline:
    a value with a space, a sign, a letter or a slash is never taken for an
    address. *)
Theorem validate_ipv4_shape v :
  validate_ipv4 v = true ->
  (7 <= String.length v <= 16)%nat
  /\ Forall (fun c => is_digit c = true \/ c = "."%char \/ c = Re.newline)
       (list_ascii_of_string v).
Proof.
  intros Hv. apply validate_ipv4_dotted_groups in Hv
    as (a & b & c & d & tail & Heq & [Hla Ha] & [Hlb Hb] & [Hlc Hc] & [Hld Hd] & Htail).
  assert (Hdigits : forall g,
            Forall (fun c => is_digit c = true) g ->
            Forall (fun c => is_digit c = true \/ c = "."%char \/ c = Re.newline) g).
  { intros g Hg. eapply Forall_impl; [exact Hg|]. cbn. auto. }
  split.
  - rewrite <- length_list_ascii_of_string, Heq.
    repeat (rewrite length_app; cbn [length]).
    destruct Htail as [-> | ->]; cbn [length]; lia.
  - rewrite Heq.
    assert (Htl : Forall (fun c => is_digit c = true \/ c = "."%char \/ c = Re.newline)
                    tail).
    { destruct Htail as [-> | ->]; [constructor|constructor; [auto|constructor]]. }
    apply Forall_app; split; [apply Hdigits, Ha|].
    apply Forall_cons; split; [auto|].
    apply Forall_app; split; [apply Hdigits, Hb|].
    apply Forall_cons; split; [auto|].
    apply Forall_app; split; [apply Hdigits, Hc|].
    apply Forall_cons; split; [auto|].
    apply Forall_app; split; [apply Hdigits, Hd|exact Htl].
Qed.

(** * Instances of the further properties *)

Lemma handed_over_lists_are_resolved_witness :
  ((forall x, x ∈ ["10.0.0.7"; "10.0.0.1"; "10.0.0.8"] -> x ∉ @nil string)
   /\ NoDup ["10.0.0.7"; "10.0.0.1"; "10.0.0.8"] /\ NoDup (@nil string))
  /\ ((forall x, x ∈ ["10.0.0.1"; "10.0.0.8"] -> x ∉ ["10.0.0.9"])
      /\ NoDup ["10.0.0.1"; "10.0.0.8"] /\ NoDup ["10.0.0.9"]).
Proof.
  apply (handed_over_lists_are_resolved Examples.fs Examples.Session unit tt
           Examples.get_transactions Examples.build_stale Examples.bfh Lists_check
           Examples.tabulate Examples.analyzed_db Examples.args
           [ warning "nothing-here";
             RunAnalyze (mkLists ["10.0.0.7"; "10.0.0.1"; "10.0.0.8"] [])
                        (mkLists ["10.0.0.1"; "10.0.0.8"] ["10.0.0.9"]);
             CreateDb "eavesarp_dump.db";
             Print no_transactions_message ]
           (Done tt)
           (mkLists ["10.0.0.7"; "10.0.0.1"; "10.0.0.8"] [])
           (mkLists ["10.0.0.1"; "10.0.0.8"] ["10.0.0.9"])).
  - vm_compute. reflexivity.
  - left. apply list_elem_of_In. simpl. auto.
Defined.

Lemma lists_hold_the_supplied_addresses_witness :
  "10.0.0.9" ∈ ["10.0.0.7"; "10.0.0.9"; "10.0.0.9"] <->
  supplied Examples.fs (global_arg Examples.args Black) "10.0.0.9"
  \/ supplied Examples.fs (list_arg Examples.args Target Black) "10.0.0.9".
Proof.
  apply (lists_hold_the_supplied_addresses Examples.fs Examples.args
           [warning "nothing-here"]
           (mkLists ["10.0.0.1"; "10.0.0.7"; "10.0.0.8"; "10.0.0.1"; "10.0.0.5"]
                    ["10.0.0.5"],
            mkLists ["10.0.0.1"; "10.0.0.7"; "10.0.0.8"]
                    ["10.0.0.7"; "10.0.0.9"; "10.0.0.9"])
           ltac:(vm_compute; reflexivity) Target Black "10.0.0.9").
Defined.

Lemma get_output_all_rejected_witness :
  exists headers,
    Forall2 (fun col header => dict_get COL_MAP col = Some header)
      ["sender"; "target"] headers
    /\ get_output Examples.Session unit Examples.get_transactions Examples.build_stale
         Examples.bfh Lists_check Examples.tabulate
         Examples.session tt (Some (mkLists ["10.0.0.99"] [])) None None
         ["sender"; "target"]
       = Ok (Examples.tabulate [] headers).
Proof.
  apply (get_output_all_rejected Examples.Session unit Examples.get_transactions
           Examples.build_stale Examples.bfh Lists_check Examples.tabulate
           Examples.session tt (Some (mkLists ["10.0.0.99"] [])) None None
           ["sender"; "target"]).
  - vm_compute. discriminate.
  - vm_compute. reflexivity.
  - reflexivity.
Defined.

Lemma get_output_unknown_column_witness :
  get_output Examples.Session unit Examples.get_transactions Examples.build_stale
    Examples.bfh Lists_check Examples.tabulate
    Examples.session tt (Some (mkLists ["10.0.0.99"] [])) None None
    (["sender"] ++ "colour" :: ["target"; "shape"])
  = Raise (KeyError "colour").
Proof.
  apply (get_output_unknown_column Examples.Session unit Examples.get_transactions
           Examples.build_stale Examples.bfh Lists_check Examples.tabulate
           Examples.session tt (Some (mkLists ["10.0.0.99"] [])) None None
           ["sender"] "colour" ["target"; "shape"]).
  - vm_compute. discriminate.
  - vm_compute. reflexivity.
  - reflexivity.
  - reflexivity.
Defined.

Lemma get_output_rectangular_witness :
  exists rows headers,
    get_output Examples.Session unit Examples.get_transactions Examples.build_stale
      Examples.bfh Lists_check Examples.tabulate
      Examples.session tt None (Some Examples.target_lists) None COL_ORDER
    = Ok (Examples.tabulate rows headers)
    /\ length headers = length COL_ORDER
    /\ Forall (fun r : row => length r = length COL_ORDER) rows
    /\ length rows
       = length (shown Lists_check None (Some Examples.target_lists)
                   (Examples.get_transactions Examples.session tt)).
Proof.
  apply (get_output_rectangular Examples.Session unit Examples.get_transactions
           Examples.build_stale Examples.bfh Lists_check Examples.tabulate
           Examples.session tt None (Some Examples.target_lists) COL_ORDER).
  - vm_compute. discriminate.
  - reflexivity.
Defined.

Lemma ipv4_from_file_clean_witness :
  exists a b c d,
    list_ascii_of_string "10.0.0.7"
    = a ++ "."%char :: b ++ "."%char :: c ++ "."%char :: d
    /\ digit_group a /\ digit_group b /\ digit_group c /\ digit_group d.
Proof.
  apply (ipv4_from_file_clean
           [ String.append "10.0.0.7" (String Re.newline "");
             "not an address";
             " 10.0.0.8 " ]
           "10.0.0.7").
  apply list_elem_of_In. vm_compute. auto.
Defined.

Lemma validate_ipv4_shape_witness :
  (7 <= String.length "10.0.0.5" <= 16)%nat
  /\ Forall (fun c => is_digit c = true \/ c = "."%char \/ c = Re.newline)
       (list_ascii_of_string "10.0.0.5").
Proof.
  apply (validate_ipv4_shape "10.0.0.5"). reflexivity.
Defined.

(** A value given twice to the white list and once to the black list
    stays in the white list; given once to each, it is in neither. *)
Example resolve_conflicts_majority_example :
  resolve_conflicts (mkLists ["10.0.0.1"; "10.0.0.2"; "10.0.0.1"] ["10.0.0.2"; "10.0.0.1"])
  = mkLists ["10.0.0.1"] [].
Proof. vm_compute. reflexivity. Qed.

(** An unusable value in the general black list ends the building of the
    lists although the general white list is fine. *)
Example build_lists_outcomes_example :
  build_lists Examples.fs
    (mkArgs (Some Capture) (Some COL_ORDER) (Some ["10.0.0.1"]) (Some ["10.0.0.2"; "bogus"])
       (Some ["nothing-here"]) None None None [] [] "eavesarp.db" None)
  = ([], Raised (NameError "line")).
Proof. vm_compute. reflexivity. Qed.

(** * Further properties of the whole list building and of the analysis *)

Section ListBuilding.

Variable fs : string -> option file.

Lemma the_list_resolved ht lt lists :
  the_list ht lt (resolve_conflicts (fst lists), resolve_conflicts (snd lists))
  = get_list lt (resolve_conflicts (match ht with Sender => fst lists | Target => snd lists end)).
Proof. destruct ht; reflexivity. Qed.

(** X14 — After the conflict resolution each of the four lists holds only
    addresses that were supplied for it, and it holds every address that
    was supplied for it and not for the opposite list of the same object:
    the resolution never drops an address that is in no conflict. *)
Theorem build_lists_keeps_unopposed_addresses args tr lists ht lt v :
  build_lists fs args = (tr, Done lists) ->
  (v ∈ the_list ht lt lists -> supplied_to fs args ht lt v)
  /\ (supplied_to fs args ht lt v ->
      ~ supplied_to fs args ht (opposite lt) v ->
      v ∈ the_list ht lt lists).
Proof.
  unfold build_lists. intros Hrun.
  apply bind_done in Hrun as (tr1 & pre & tr2 & Hpop & Hret & _).
  injection Hret as _ <-. rewrite the_list_resolved.
  pose proof (populate_done fs args tr1 pre Hpop ht) as Hpre.
  unfold the_list in Hpre. unfold supplied_to.
  set (var := match ht with Sender => fst pre | Target => snd pre end) in *.
  destruct (resolve_conflicts_subset var) as [Hw Hb].
  destruct (resolve_conflicts_occurrences var v) as [Hmw Hmb].
  split.
  - intros Hin. apply Hpre. destruct lt; cbn [get_list] in *; auto.
  - intros Hsup Hnot. apply Hpre in Hsup.
    assert (Hzero : occurrences v (get_list (opposite lt) var) = 0%nat).
    { destruct (occurrences v (get_list (opposite lt) var)) eqn:Hocc; [reflexivity|].
      exfalso. apply Hnot, Hpre, occurrences_pos. lia. }
    apply occurrences_pos in Hsup.
    destruct lt; cbn [get_list opposite] in *; [apply Hmw|apply Hmb]; lia.
Qed.

End ListBuilding.

Section AnalysisRun.

Variable fs : string -> option file.
Variable Session : Type.
Variable Order : Type.
Variable desc : Order.
Variable get_transactions : Session -> Order -> list Transaction.
Variable build_stale : Transaction -> option ColorProfile -> string.
Variable bfh : Transaction -> string -> bool -> string.
Variable check : Lists -> string -> bool.
Variable tabulate : list row -> list string -> string.
Variable analyzed_db : Args -> Lists -> Lists -> Session.

Lemma check_columns_passed args columns :
  check_columns args = ([], Done tt) ->
  output_columns args = Some columns ->
  valid_columns columns = true.
Proof.
  unfold check_columns. intros Hcheck Hcols. rewrite Hcols in Hcheck.
  destruct columns as [|col cols]; [discriminate|].
  apply no_bad_column. destruct (List.filter _ (col :: cols)); [reflexivity|discriminate].
Qed.

Lemma get_output_returns db_session order_by sender_lists target_lists
    color_profile columns :
  valid_columns columns = true ->
  exists text,
    get_output Session Order get_transactions build_stale bfh check tabulate
      db_session order_by sender_lists target_lists color_profile columns
    = Ok text.
Proof.
  intros Hvalid. unfold get_output.
  destruct (get_transactions db_session order_by); [eauto|].
  destruct (build_headers_valid columns Hvalid) as (headers & -> & _). eauto.
Qed.

(** X15 — In analyze mode with at least one input file, a column selection
    that passed the check and list arguments from which the lists can be
    built (every value of the general arguments is an address or names a
    readable file, no value of the sender and target arguments names a path
    that cannot be read), the run ends normally once the analysis and the
    opening of the database return: after the warnings of the list
    population it runs the analysis with the resolved lists, opens the
    output database and prints what [get_output] returns for these lists
    and columns; [get_output] cannot raise there, as the column check has
    passed. *)
Theorem analyze_run_completes args columns :
  cmd args = Some Analyze ->
  pcap_files args <> [] \/ sqlite_files args <> [] ->
  output_columns args = Some columns ->
  check_columns args = ([], Done tt) ->
  lists_buildable fs args = true ->
  exists tr sender_lists target_lists text,
    build_lists fs args = (tr, Done (sender_lists, target_lists))
    /\ get_output Session Order get_transactions build_stale bfh check tabulate
         (analyzed_db args sender_lists target_lists) desc
         (Some sender_lists) (Some target_lists) (color_profile args) columns
       = Ok text
    /\ main fs Session Order desc get_transactions build_stale bfh check tabulate
         analyzed_db args
       = (tr ++ [ RunAnalyze sender_lists target_lists;
                  CreateDb (database_output_file args);
                  Print text ],
          Done tt).
Proof.
  intros Hcmd Hinput Hcols Hcheck Husable.
  pose proof (build_lists_cases fs args) as Hlists.
  unfold completes_if in Hlists. rewrite Husable in Hlists.
  destruct Hlists as (tr & [sl tl] & Hlists).
  destruct (get_output_returns (analyzed_db args sl tl) desc (Some sl) (Some tl)
              (color_profile args) columns (check_columns_passed args columns Hcheck Hcols))
    as [text Hout].
  exists tr, sl, tl, text. split; [exact Hlists|]. split; [exact Hout|].
  unfold main. rewrite Hcmd, (bind_done_eq _ _ _ _ Hcheck). cbn [app].
  rewrite (bind_done_eq _ _ _ _ Hlists). cbn [fst snd].
  unfold run_analyze. rewrite Hcols, Hout.
  destruct (pcap_files args) as [|p ps], (sqlite_files args) as [|q qs];
    [destruct Hinput as [H | H]; contradiction | reflexivity..].
Qed.

End AnalysisRun.

Lemma build_lists_keeps_unopposed_addresses_witness :
  ("10.0.0.1" ∈ the_list Sender White
                  (mkLists ["10.0.0.7"; "10.0.0.1"; "10.0.0.8"] [],
                   mkLists ["10.0.0.1"; "10.0.0.8"] ["10.0.0.9"]) ->
   supplied_to Examples.fs Examples.args Sender White "10.0.0.1")
  /\ (supplied_to Examples.fs Examples.args Sender White "10.0.0.1" ->
      ~ supplied_to Examples.fs Examples.args Sender (opposite White) "10.0.0.1" ->
      "10.0.0.1" ∈ the_list Sender White
                     (mkLists ["10.0.0.7"; "10.0.0.1"; "10.0.0.8"] [],
                      mkLists ["10.0.0.1"; "10.0.0.8"] ["10.0.0.9"])).
Proof.
  apply (build_lists_keeps_unopposed_addresses Examples.fs Examples.args
           [warning "nothing-here"]
           (mkLists ["10.0.0.7"; "10.0.0.1"; "10.0.0.8"] [],
            mkLists ["10.0.0.1"; "10.0.0.8"] ["10.0.0.9"])
           Sender White "10.0.0.1").
  vm_compute. reflexivity.
Defined.

Lemma analyze_run_completes_witness :
  exists tr sender_lists target_lists text,
    build_lists Examples.fs Examples.args = (tr, Done (sender_lists, target_lists))
    /\ get_output Examples.Session unit Examples.get_transactions Examples.build_stale
         Examples.bfh Lists_check Examples.tabulate
         (Examples.analyzed_db Examples.args sender_lists target_lists) tt
         (Some sender_lists) (Some target_lists) (color_profile Examples.args) COL_ORDER
       = Ok text
    /\ main Examples.fs Examples.Session unit tt Examples.get_transactions
         Examples.build_stale Examples.bfh Lists_check Examples.tabulate
         Examples.analyzed_db Examples.args
       = (tr ++ [ RunAnalyze sender_lists target_lists;
                  CreateDb (database_output_file Examples.args);
                  Print text ],
          Done tt).
Proof.
  apply (analyze_run_completes Examples.fs Examples.Session unit tt
           Examples.get_transactions Examples.build_stale Examples.bfh Lists_check
           Examples.tabulate Examples.analyzed_db Examples.args COL_ORDER).
  - reflexivity.
  - left. discriminate.
  - reflexivity.
  - reflexivity.
  - vm_compute. reflexivity.
Defined.
